(** * cashola: persisting the state of an object across processes

    A shallow embedding of [src/index.ts] (class [Cashola]) together with
    models of the platform it runs on: JavaScript values and [JSON], the
    [path] module, the file system ([fs] and [fs/promises]) and the
    [valid-filename] package.  The methods of the class are state-passing
    functions on a [World]; exceptions are results. *)

From Stdlib Require Import ZArith String Ascii List Bool Lia.
From Stdlib Require Import DecimalString DecimalN DecimalPos DecimalFacts.
From stdpp Require Import base gmap strings list.

Local Open Scope string_scope.
Local Open Scope list_scope.
Local Open Scope Z_scope.

(** ** JavaScript values *)

(** Primitive values.  A number is one of the integers; fractions, NaN and
    the infinities are outside the model, and so are symbols and big
    integers. *)
Inductive prim : Type :=
| PUndefined
| PNull
| PBool (b : bool)
| PNum (n : Z)
| PStr (s : string)
| PFunction.

(** The contents of an object, by value: what [JSON.stringify] walks over and
    what [JSON.parse] builds.  The fields of a mapping are kept in
    enumeration order. *)
Unset Elimination Schemes.
Inductive value : Type :=
| VPrim (p : prim)
| VArr (items : list value)
| VObj (fields : list (string * value)).
Set Elimination Schemes.

Abbreviation VNull := (VPrim PNull).
Abbreviation VBool b := (VPrim (PBool b)).
Abbreviation VNum n := (VPrim (PNum n)).
Abbreviation VStr s := (VPrim (PStr s)).

Section value_induction.
Variable P : value -> Prop.
Hypothesis Hprim : forall p, P (VPrim p).
Hypothesis Harr : forall items, Forall P items -> P (VArr items).
Hypothesis Hobj : forall fields, Forall (fun kv => P (snd kv)) fields -> P (VObj fields).

Fixpoint value_ind' (v : value) : P v :=
  match v with
  | VPrim p => Hprim p
  | VArr items =>
      Harr items
        ((fix go (l : list value) : Forall P l :=
            match l with
            | [] => @List.Forall_nil _ P
            | x :: r => @List.Forall_cons _ P x r (value_ind' x) (go r)
            end) items)
  | VObj fields =>
      Hobj fields
        ((fix go (l : list (string * value)) : Forall (fun kv => P (snd kv)) l :=
            match l with
            | [] => @List.Forall_nil _ (fun kv => P (snd kv))
            | kv :: r =>
                @List.Forall_cons _ (fun kv => P (snd kv)) kv r (value_ind' (snd kv)) (go r)
            end) fields)
  end.
End value_induction.

(** An object on the heap is an array or a plain object, with the integrity
    level [Object.seal] and [Object.freeze] leave it at.  What an object
    holds it holds by value: an object inside another one has no place of its
    own on the heap. *)
Inductive body : Type :=
| BArr (items : list value)
| BObj (fields : list (string * value)).

Inductive integrity : Type := Extensible | Sealed | Frozen.

Record object : Type := Object { contents : body; level : integrity }.

Definition value_of_body (b : body) : value :=
  match b with
  | BArr items => VArr items
  | BObj fields => VObj fields
  end.

Definition loc := nat.

(** What a variable holds: a primitive or a reference to an object. *)
Inductive jsval : Type :=
| JPrim (p : prim)
| JRef (l : loc).

#[global] Instance prim_eq_dec : EqDecision prim.
Proof. solve_decision. Defined.

#[global] Instance jsval_eq_dec : EqDecision jsval.
Proof. solve_decision. Defined.

(** [typeof] *)
Definition typeof (v : jsval) : string :=
  match v with
  | JPrim PUndefined => "undefined"
  | JPrim PNull => "object"
  | JPrim (PBool _) => "boolean"
  | JPrim (PNum _) => "number"
  | JPrim (PStr _) => "string"
  | JPrim PFunction => "function"
  | JRef _ => "object"
  end.

(** ** JSON

    [JSON.stringify] and [JSON.parse] on the values above.  Text is a string
    of bytes; bytes from 128 up stand for themselves on both sides. *)
Module JSON.

Definition code (c : ascii) : nat := nat_of_ascii c.

(** The double quote, character 34. *)
Definition dquote : ascii := ascii_of_nat 34.

Definition hex_digit (n : nat) : ascii :=
  ascii_of_nat (if (n <? 10)%nat then 48 + n else 87 + n).

(** A character inside a quoted string, as [JSON.stringify] writes it. *)
Definition escape_char (c : ascii) : string :=
  if Ascii.eqb c dquote then String "\" (String dquote "")
  else if Ascii.eqb c "\" then "\\"
  else if (code c =? 8)%nat then "\b"
  else if (code c =? 9)%nat then "\t"
  else if (code c =? 10)%nat then "\n"
  else if (code c =? 12)%nat then "\f"
  else if (code c =? 13)%nat then "\r"
  else if (code c <? 32)%nat then
    "\u00" +:+ String (hex_digit (code c / 16)) (String (hex_digit (code c mod 16)) "")
  else String c "".

Fixpoint escape (s : string) : string :=
  match s with
  | "" => ""
  | String c r => escape_char c +:+ escape r
  end.

Definition quote (s : string) : string :=
  String dquote (escape s +:+ String dquote "").

Definition digits (n : N) : string := NilZero.string_of_uint (N.to_uint n).

Definition string_of_Z (z : Z) : string :=
  if z <? 0 then String "-" (digits (Z.to_N (- z))) else digits (Z.to_N z).

(** [JSON.stringify] on contents.  [None] is the result [undefined]; inside
    an array such an item is written [null], inside an object the field is
    left out. *)
Fixpoint stringify_value (v : value) : option string :=
  match v with
  | VPrim PUndefined => None
  | VPrim PFunction => None
  | VPrim PNull => Some "null"
  | VPrim (PBool b) => Some (if b then "true" else "false")
  | VPrim (PNum n) => Some (string_of_Z n)
  | VPrim (PStr s) => Some (quote s)
  | VArr items =>
      Some ("[" +:+ String.concat ","
              (map (fun x => default "null" (stringify_value x)) items) +:+ "]")
  | VObj fields =>
      Some ("{" +:+ String.concat ","
              (omap (fun kv : string * value =>
                       (fun t => quote (fst kv) +:+ ":" +:+ t) <$> stringify_value (snd kv))
                    fields) +:+ "}")
  end.

(** *** Parsing *)

(** [Malformed] is the [SyntaxError] of [JSON.parse]; [Unmodelled] marks
    text whose value the model has no counterpart for (a fraction or an
    exponent, an escape of a character from 128 up) and a search cut short
    by its bound. *)
Inductive parse (A : Type) : Type :=
| Parsed (a : A) (rest : string)
| Malformed
| Unmodelled.
Arguments Parsed {A} a rest.
Arguments Malformed {A}.
Arguments Unmodelled {A}.

Definition is_ws (c : ascii) : bool :=
  (code c =? 32)%nat || (code c =? 9)%nat || (code c =? 10)%nat || (code c =? 13)%nat.

Fixpoint skip_ws (s : string) : string :=
  match s with
  | String c r => if is_ws c then skip_ws r else s
  | "" => ""
  end.

Definition is_digit (c : ascii) : bool := (48 <=? code c)%nat && (code c <=? 57)%nat.

Fixpoint span_digits (s : string) : string * string :=
  match s with
  | String c r =>
      if is_digit c then let '(ds, rest) := span_digits r in (String c ds, rest)
      else ("", s)
  | "" => ("", "")
  end.

Definition starts_fraction (s : string) : bool :=
  match s with
  | String c _ => Ascii.eqb c "." || Ascii.eqb c "e" || Ascii.eqb c "E"
  | "" => false
  end.

(** The digits of a number, after its sign. *)
Definition parse_digits (neg : bool) (s : string) : parse Z :=
  let '(ds, rest) := span_digits s in
  match ds with
  | EmptyString => Malformed
  | String d ds' =>
      if Ascii.eqb d "0" && negb (String.eqb ds' "") then Malformed
      else if starts_fraction rest then Unmodelled
      else match NilZero.uint_of_string ds with
           | Some u => let n := Z.of_N (N.of_uint u) in
                       Parsed (if neg then - n else n) rest
           | None => Malformed
           end
  end.

Definition parse_number (s : string) : parse Z :=
  match s with
  | String c r => if Ascii.eqb c "-" then parse_digits true r else parse_digits false s
  | EmptyString => Malformed
  end.

Definition hex_value (c : ascii) : option nat :=
  let n := code c in
  if (48 <=? n)%nat && (n <=? 57)%nat then Some (n - 48)%nat
  else if (97 <=? n)%nat && (n <=? 102)%nat then Some (n - 87)%nat
  else if (65 <=? n)%nat && (n <=? 70)%nat then Some (n - 55)%nat
  else None.

Definition hex4 (a b c d : ascii) : option nat :=
  match hex_value a, hex_value b, hex_value c, hex_value d with
  | Some x, Some y, Some z, Some w => Some (((x * 16 + y) * 16 + z) * 16 + w)%nat
  | _, _, _, _ => None
  end.

Definition unescape (e : ascii) : option ascii :=
  if Ascii.eqb e dquote then Some dquote
  else if Ascii.eqb e "\" then Some "\"%char
  else if Ascii.eqb e "/" then Some "/"%char
  else if Ascii.eqb e "b" then Some (ascii_of_nat 8)
  else if Ascii.eqb e "f" then Some (ascii_of_nat 12)
  else if Ascii.eqb e "n" then Some (ascii_of_nat 10)
  else if Ascii.eqb e "r" then Some (ascii_of_nat 13)
  else if Ascii.eqb e "t" then Some (ascii_of_nat 9)
  else None.

Definition cons_char (c : ascii) (p : parse string) : parse string :=
  match p with
  | Parsed s rest => Parsed (String c s) rest
  | Malformed => Malformed
  | Unmodelled => Unmodelled
  end.

(** The characters of a string, after its opening quote. *)
Fixpoint parse_chars (s : string) : parse string :=
  match s with
  | "" => Malformed
  | String c r =>
      if Ascii.eqb c dquote then Parsed "" r
      else if Ascii.eqb c "\" then
        match r with
        | "" => Malformed
        | String e r' =>
            if Ascii.eqb e "u" then
              match r' with
              | String h1 (String h2 (String h3 (String h4 r''))) =>
                  match hex4 h1 h2 h3 h4 with
                  | Some n =>
                      if (n <? 128)%nat then cons_char (ascii_of_nat n) (parse_chars r'')
                      else Unmodelled
                  | None => Malformed
                  end
              | _ => Malformed
              end
            else match unescape e with
                 | Some c' => cons_char c' (parse_chars r')
                 | None => Malformed
                 end
        end
      else if (code c <? 32)%nat then Malformed
      else cons_char c (parse_chars r)
  end.

Definition map_parse {A B : Type} (f : A -> B) (p : parse A) : parse B :=
  match p with
  | Parsed a rest => Parsed (f a) rest
  | Malformed => Malformed
  | Unmodelled => Unmodelled
  end.

Fixpoint strip_prefix (p s : string) : option string :=
  match p, s with
  | EmptyString, _ => Some s
  | String a p', String b s' => if Ascii.eqb a b then strip_prefix p' s' else None
  | String _ _, EmptyString => None
  end.

Definition parse_literal (s : string) : parse value :=
  match strip_prefix "null" s with
  | Some r => Parsed VNull r
  | None =>
      match strip_prefix "true" s with
      | Some r => Parsed (VBool true) r
      | None =>
          match strip_prefix "false" s with
          | Some r => Parsed (VBool false) r
          | None => Malformed
          end
      end
  end.

(** Defining a field of the object under construction: a name met again
    keeps its place and takes the later value. *)
Fixpoint set_field (fields : list (string * value)) (k : string) (v : value)
  : list (string * value) :=
  match fields with
  | [] => [(k, v)]
  | (k', v') :: r =>
      if String.eqb k' k then (k, v) :: r else (k', v') :: set_field r k v
  end.

Definition build_object (members : list (string * value)) : list (string * value) :=
  fold_left (fun acc kv => set_field acc (fst kv) (snd kv)) members [].

(** The recursive descent.  [fuel] bounds the depth of the calls, and a
    search that runs out is [Unmodelled]; [parse_text] gives the length of
    the text, which is enough for every text [stringify_value] writes. *)
Fixpoint parse_value (fuel : nat) (s : string) {struct fuel} : parse value :=
  match fuel with
  | O => Unmodelled
  | S fuel' =>
      match skip_ws s with
      | EmptyString => Malformed
      | String c r =>
          if Ascii.eqb c "[" then
            match skip_ws r with
            | String "]" r' => Parsed (VArr []) r'
            | _ => map_parse VArr (parse_elements fuel' r)
            end
          else if Ascii.eqb c "{" then
            match skip_ws r with
            | String "}" r' => Parsed (VObj []) r'
            | _ => map_parse (fun ms => VObj (build_object ms)) (parse_members fuel' r)
            end
          else if Ascii.eqb c dquote then map_parse (fun t => VStr t) (parse_chars r)
          else if Ascii.eqb c "-" || is_digit c then
            map_parse (fun n => VNum n) (parse_number (String c r))
          else parse_literal (String c r)
      end
  end
with parse_elements (fuel : nat) (s : string) {struct fuel} : parse (list value) :=
  match fuel with
  | O => Unmodelled
  | S fuel' =>
      match parse_value fuel' s with
      | Parsed v r =>
          match skip_ws r with
          | String c r' =>
              if Ascii.eqb c "," then map_parse (cons v) (parse_elements fuel' r')
              else if Ascii.eqb c "]" then Parsed [v] r'
              else Malformed
          | EmptyString => Malformed
          end
      | Malformed => Malformed
      | Unmodelled => Unmodelled
      end
  end
with parse_members (fuel : nat) (s : string) {struct fuel} : parse (list (string * value)) :=
  match fuel with
  | O => Unmodelled
  | S fuel' =>
      match skip_ws s with
      | String q r =>
          if Ascii.eqb q dquote then
            match parse_chars r with
            | Parsed k r1 =>
                match skip_ws r1 with
                | String ":" r2 =>
                    match parse_value fuel' r2 with
                    | Parsed v r3 =>
                        match skip_ws r3 with
                        | String c r4 =>
                            if Ascii.eqb c "," then
                              map_parse (cons (k, v)) (parse_members fuel' r4)
                            else if Ascii.eqb c "}" then Parsed [(k, v)] r4
                            else Malformed
                        | EmptyString => Malformed
                        end
                    | Malformed => Malformed
                    | Unmodelled => Unmodelled
                    end
                | _ => Malformed
                end
            | Malformed => Malformed
            | Unmodelled => Unmodelled
            end
          else Malformed
      | EmptyString => Malformed
      end
  end.

(** [JSON.parse]: one value, with nothing but white space after it. *)
Definition parse_text (s : string) : parse value :=
  match parse_value (S (String.length s)) s with
  | Parsed v r =>
      match skip_ws r with
      | EmptyString => Parsed v EmptyString
      | String _ _ => Malformed
      end
  | Malformed => Malformed
  | Unmodelled => Unmodelled
  end.

(** The values that are data: no [undefined] and no function anywhere,
    numbers within the safe integers, field names distinct. *)
Definition safe_integer (n : Z) : bool := (- (2 ^ 53) <? n) && (n <? 2 ^ 53).

Fixpoint is_data (v : value) : bool :=
  match v with
  | VPrim PUndefined => false
  | VPrim PFunction => false
  | VPrim (PNum n) => safe_integer n
  | VPrim _ => true
  | VArr items => forallb is_data items
  | VObj fields =>
      forallb (fun kv : string * value => is_data (snd kv)) fields
      && bool_decide (NoDup (map fst fields))
  end.

End JSON.

(** ** Paths

    The [path] module on POSIX.  A path is kept resolved: its segments, read
    from the working directory, or from the root when the first segment is
    the empty string.  This is how the file system reads the text
    [path.join] returns. *)
Module Path.

Definition path := list string.

Fixpoint split_slash (s : string) : list string :=
  match s with
  | EmptyString => [EmptyString]
  | String c r =>
      if Ascii.eqb c "/" then EmptyString :: split_slash r
      else match split_slash r with
           | h :: t => String c h :: t
           | [] => [String c EmptyString]
           end
  end.

Definition is_absolute (s : string) : bool :=
  match s with
  | String c _ => Ascii.eqb c "/"
  | EmptyString => false
  end.

(** [normalizeString]: empty and [.] segments go, [..] takes back the segment
    before it; [stack] holds the segments kept so far, last first. *)
Fixpoint normalize_segments (absolute : bool) (stack segs : list string) : list string :=
  match segs with
  | [] => rev stack
  | seg :: rest =>
      if String.eqb seg "" || String.eqb seg "." then normalize_segments absolute stack rest
      else if String.eqb seg ".." then
        match stack with
        | top :: stack' =>
            if String.eqb top ".." then normalize_segments absolute (seg :: stack) rest
            else normalize_segments absolute stack' rest
        | [] =>
            if absolute then normalize_segments absolute [] rest
            else normalize_segments absolute [seg] rest
        end
      else normalize_segments absolute (seg :: stack) rest
  end.

Definition resolve (s : string) : path :=
  (if is_absolute s then [EmptyString] else [])
    ++ normalize_segments (is_absolute s) [] (split_slash s).

(** [path.join(a, b)]: empty arguments are left out, the rest is joined with
    a slash and normalized. *)
Definition join (a b : string) : path :=
  resolve (if String.eqb a "" then b
           else if String.eqb b "" then a
           else a +:+ "/" +:+ b).

Definition dirname (p : path) : path := removelast p.

End Path.

(** ** The file system

    Regular files with their text, and directories.  The working directory
    and the root always exist. *)
Module Fs.

Import Path.

Inductive errcode : Type := ENOENT | EISDIR | ENOTDIR | EEXIST | ERR_FS_EISDIR.

#[global] Instance errcode_eq_dec : EqDecision errcode.
Proof. solve_decision. Defined.

Record disk : Type := Disk { files : gmap path string; dirs : gset path }.

Definition is_file (d : disk) (p : path) : bool := bool_decide (is_Some (files d !! p)).

Definition is_dir (d : disk) (p : path) : bool :=
  bool_decide (p = [] \/ p = [EmptyString] \/ p ∈ dirs d).

(** The paths strictly above [p], and [p] with the named paths above it. *)
Definition proper_prefixes (p : path) : list path :=
  map (fun n => take n p) (seq 0 (length p)).

Definition ancestors (p : path) : list path :=
  map (fun n => take n p) (seq 1 (length p)).

(** A regular file stands where a directory is needed. *)
Definition blocked (d : disk) (p : path) : bool := existsb (is_file d) (proper_prefixes p).

Definition readFile (d : disk) (p : path) : errcode + string :=
  if blocked d p then inl ENOTDIR
  else match files d !! p with
       | Some text => inr text
       | None => if is_dir d p then inl EISDIR else inl ENOENT
       end.

Definition writeFile (d : disk) (p : path) (text : string) : errcode + disk :=
  if blocked d p then inl ENOTDIR
  else if is_file d p then inr (Disk (<[p := text]> (files d)) (dirs d))
  else if is_dir d p then inl EISDIR
  else if is_dir d (dirname p) then inr (Disk (<[p := text]> (files d)) (dirs d))
  else inl ENOENT.

(** [mkdir] with [recursive: true] *)
Definition mkdir (d : disk) (p : path) : errcode + disk :=
  if blocked d p then inl ENOTDIR
  else if is_file d p then inl EEXIST
  else inr (Disk (files d) (dirs d ∪ list_to_set (ancestors p))).

(** [rm] without options: of one file, and not of a directory. *)
Definition rm (d : disk) (p : path) : errcode + disk :=
  if blocked d p then inl ENOTDIR
  else if is_file d p then inr (Disk (delete p (files d)) (dirs d))
  else if is_dir d p then inl ERR_FS_EISDIR
  else inl ENOENT.

(** [rm] with [recursive: true, force: true]: all that lies at or under [p]
    goes, and nothing is an error. *)
Definition rm_rf (d : disk) (p : path) : disk :=
  Disk (filter (fun kv => ~ p `prefix_of` fst kv) (files d))
       (filter (fun q => ~ p `prefix_of` q) (dirs d)).

End Fs.

(** ** The package [valid-filename]

    A name is valid when it is not empty, has at most 255 characters, holds
    none of the reserved characters, is none of the names Windows reserves
    and is neither [.] nor [..]. *)
Module ValidFilename.

Definition reserved_char (c : ascii) : bool :=
  (nat_of_ascii c <? 32)%nat
  || Ascii.eqb c "<" || Ascii.eqb c ">" || Ascii.eqb c ":" || Ascii.eqb c JSON.dquote
  || Ascii.eqb c "/" || Ascii.eqb c "\" || Ascii.eqb c "|" || Ascii.eqb c "?"
  || Ascii.eqb c "*".

Definition lower (c : ascii) : ascii :=
  let n := nat_of_ascii c in
  if (65 <=? n)%nat && (n <=? 90)%nat then ascii_of_nat (n + 32) else c.

Definition lowercase (s : string) : string :=
  string_of_list_ascii (map lower (list_ascii_of_string s)).

Definition windows_reserved (s : string) : bool :=
  match lowercase s with
  | String a (String b (String c rest)) =>
      let stem := String a (String b (String c EmptyString)) in
      match rest with
      | EmptyString =>
          String.eqb stem "con" || String.eqb stem "prn"
          || String.eqb stem "aux" || String.eqb stem "nul"
      | String d EmptyString =>
          (String.eqb stem "com" || String.eqb stem "lpt") && JSON.is_digit d
      | _ => false
      end
  | _ => false
  end.

Definition isValidFilename (s : string) : bool :=
  negb (String.eqb s "")
  && (String.length s <=? 255)%nat
  && negb (existsb reserved_char (list_ascii_of_string s))
  && negb (windows_reserved s)
  && negb (String.eqb s ".")
  && negb (String.eqb s "..").

End ValidFilename.

(** ** The world a call runs in *)

(** What is thrown.  [Error] is [new Error(message)], which has no [code];
    [SystemError] is what the file system throws, with its [code]. *)
Inductive error : Type :=
| Error (message : string)
| SystemError (code : Fs.errcode)
| SyntaxError
| TypeError (message : string).

(** [err.code === c] *)
Definition has_code (err : error) (c : Fs.errcode) : bool :=
  match err with
  | SystemError c' => bool_decide (c' = c)
  | _ => false
  end.

(** How a call ends.  [Stuck] is a run the model does not follow: a
    reference to no object, text the parser has no value for. *)
Inductive outcome (A : Type) : Type :=
| Return (a : A)
| Throw (err : error)
| Stuck.
Arguments Return {A} a.
Arguments Throw {A} err.
Arguments Stuck {A}.

(** The fields of the one [Cashola] instance. *)
Record Cashola : Type := mkCashola {
  ignoreCashola : bool;
  storageDir : string;
  keyToFileMap : gmap string Path.path
}.

(** A write that [fs.writeFile] has been asked for and that has not
    completed yet. *)
Record pending_write : Type := mkPending {
  pw_key : string;
  pw_file : option Path.path;
  pw_data : option string
}.

Record World : Type := mkWorld {
  this : Cashola;
  disk : Fs.disk;
  heap : list object;
  env : gmap string string;
  pending : list pending_write
}.

Definition M (A : Type) : Type := World -> outcome A * World.

#[global] Instance M_ret : MRet M := fun A a w => (Return a, w).

#[global] Instance M_bind : MBind M := fun A B f m w =>
  match m w with
  | (Return a, w') => f a w'
  | (Throw err, w') => (Throw err, w')
  | (Stuck, w') => (Stuck, w')
  end.

Definition throw {A : Type} (err : error) : M A := fun w => (Throw err, w).

Definition stuck {A : Type} : M A := fun w => (Stuck, w).

(** [try { body } catch (err) { handler }] *)
Definition try_catch {A : Type} (body : M A) (handler : error -> M A) : M A := fun w =>
  match body w with
  | (Throw err, w') => handler err w'
  | r => r
  end.

Definition get_this : M Cashola := fun w => (Return (this w), w).

Definition set_this (c : Cashola) : M unit := fun w =>
  (Return tt, mkWorld c (disk w) (heap w) (env w) (pending w)).

Definition set_disk (d : Fs.disk) : M unit := fun w =>
  (Return tt, mkWorld (this w) d (heap w) (env w) (pending w)).

Definition set_heap (h : list object) : M unit := fun w =>
  (Return tt, mkWorld (this w) (disk w) h (env w) (pending w)).

Definition push_pending (t : pending_write) : M unit := fun w =>
  (Return tt, mkWorld (this w) (disk w) (heap w) (env w) (pending w ++ [t])).

Definition deref (l : loc) : M object := fun w =>
  match heap w !! l with
  | Some o => (Return o, w)
  | None => (Stuck, w)
  end.

(** A new object takes the next place on the heap. *)
Definition alloc (o : object) : M jsval := fun w =>
  (Return (JRef (length (heap w))),
   mkWorld (this w) (disk w) (heap w ++ [o]) (env w) (pending w)).

(** *** The platform's calls

    The calls of [fs/promises] are awaited where the source awaits them, so
    they act as their [fs] counterparts do.  A path or a text that is
    [undefined] is refused before the disk is touched. *)
Definition invalid_arg : error := TypeError "ERR_INVALID_ARG_TYPE".

Definition of_fs {A : Type} (r : Fs.errcode + A) : M A := fun w =>
  match r with
  | inr a => (Return a, w)
  | inl c => (Throw (SystemError c), w)
  end.

Definition readFile (file : option Path.path) : M string := fun w =>
  match file with
  | None => (Throw invalid_arg, w)
  | Some p => of_fs (Fs.readFile (disk w) p) w
  end.

Definition writeFile (file : option Path.path) (data : option string) : M unit := fun w =>
  match file, data with
  | Some p, Some text => (d ← of_fs (Fs.writeFile (disk w) p text); set_disk d) w
  | _, _ => (Throw invalid_arg, w)
  end.

Definition mkdir (dir : string) : M unit := fun w =>
  (d ← of_fs (Fs.mkdir (disk w) (Path.resolve dir)); set_disk d) w.

Definition rm (p : Path.path) : M unit := fun w =>
  (d ← of_fs (Fs.rm (disk w) p); set_disk d) w.

Definition rm_recursive_force (dir : string) : M unit := fun w =>
  set_disk (Fs.rm_rf (disk w) (Path.resolve dir)) w.

(** [JSON.stringify(obj)] *)
Definition JSON_stringify (obj : jsval) : M (option string) :=
  match obj with
  | JPrim p => mret (JSON.stringify_value (VPrim p))
  | JRef l => o ← deref l; mret (JSON.stringify_value (value_of_body (contents o)))
  end.

(** [JSON.parse(str)]: an array or an object is a new object on the heap. *)
Definition JSON_parse (str : string) : M jsval :=
  match JSON.parse_text str with
  | JSON.Parsed (VPrim p) _ => mret (JPrim p)
  | JSON.Parsed (VArr items) _ => alloc (Object (BArr items) Extensible)
  | JSON.Parsed (VObj fields) _ => alloc (Object (BObj fields) Extensible)
  | JSON.Malformed => throw SyntaxError
  | JSON.Unmodelled => stuck
  end.

(** [Array.isArray(v)] *)
Definition Array_isArray (v : jsval) : M bool :=
  match v with
  | JPrim _ => mret false
  | JRef l =>
      o ← deref l;
      mret (match contents o with BArr _ => true | BObj _ => false end)
  end.

(** The names every plain object inherits from [Object.prototype]; the [in]
    operator finds them in an object that has no field of its own. *)
Definition Object_prototype_names : list string :=
  [ "constructor"; "__defineGetter__"; "__defineSetter__"; "hasOwnProperty";
    "__lookupGetter__"; "__lookupSetter__"; "isPrototypeOf";
    "propertyIsEnumerable"; "toString"; "valueOf"; "__proto__";
    "toLocaleString" ].

(** [key in map], for a plain object used as a map *)
Definition key_in (key : string) (map : gmap string Path.path) : bool :=
  bool_decide (is_Some (map !! key)) || bool_decide (key ∈ Object_prototype_names).

(** The handler of a proxy: the closure over [key] that [getHandler] or
    [getHandlerSync] returns. *)
Inductive handler : Type :=
| Handler (key : string)
| HandlerSync (key : string).

(** What a remember function returns: the value it was given, or a proxy
    over a target with its handler. *)
Inductive live : Type :=
| Plain (v : jsval)
| Proxy (target : loc) (h : handler).

(** [new Proxy(target, handler)] *)
Definition new_Proxy (target : jsval) (h : handler) : M live :=
  match target with
  | JRef l => mret (Proxy l h)
  | JPrim _ => throw (TypeError "Cannot create proxy with a non-object as target or handler")
  end.

(** The result of [Reflect.set] on an object: the object after the
    assignment when it is accepted, or the refusal, or what it throws. *)
Inductive set_result : Type :=
| SetOk (o' : object)
| SetRejected
| SetThrows (err : error).

(** ** The class [Cashola] of [src/index.ts]

    An asynchronous method is followed as one run: an awaited call has
    completed when the next statement runs.  What other tasks do between two
    awaits is not part of the model; a call that is not awaited leaves a
    pending write behind. *)

(** [new Cashola()] in a process with environment [e] *)
Definition new_Cashola (e : gmap string string) : Cashola :=
  mkCashola (bool_decide (e !! "IGNORE_CASHOLA" = Some "true")) ".cashola" ∅.

(** The [catch] clause of [save] and of [saveSync]: on [ENOENT] the storage
    directory is made and the write is tried once more; any other error is
    caught and goes no further. *)
Definition ENOENT_retry (key : string) (str : option string) (err : error) : M unit :=
  if has_code err Fs.ENOENT then
    c ← get_this;
    mkdir (storageDir c);;
    c' ← get_this;
    writeFile (keyToFileMap c' !! key) str
  else mret tt.

(** [save], awaited by its caller. *)
Definition save (key : string) (obj : jsval) : M unit :=
  str ← JSON_stringify obj;
  try_catch (c ← get_this; writeFile (keyToFileMap c !! key) str)
            (ENOENT_retry key str).

Definition saveSync (key : string) (obj : jsval) : M unit :=
  str ← JSON_stringify obj;
  try_catch (c ← get_this; writeFile (keyToFileMap c !! key) str)
            (ENOENT_retry key str).

(** [void this.save(key, obj)]: the call runs [save] up to its first
    [await], where the write has been asked for, and does not wait; a
    failure before that point rejects a promise nobody holds. *)
Definition save_start (key : string) (obj : jsval) : M unit := fun w =>
  match JSON_stringify obj w with
  | (Return str, w') =>
      push_pending (mkPending key (keyToFileMap (this w') !! key) str) w'
  | (Throw _, w') => (Return tt, w')
  | (Stuck, w') => (Stuck, w')
  end.

(** The rest of [save], run when the pending write completes. *)
Definition save_settle (t : pending_write) : M unit :=
  try_catch (writeFile (pw_file t) (pw_data t))
            (ENOENT_retry (pw_key t) (pw_data t)).

Definition load (key : string) : M jsval :=
  c ← get_this;
  str ← readFile (keyToFileMap c !! key);
  JSON_parse str.

Definition loadSync (key : string) : M jsval :=
  c ← get_this;
  str ← readFile (keyToFileMap c !! key);
  JSON_parse str.

(** The shapes differ when exactly one of the two is an array; the message
    names the shape of what is stored. *)
Definition checkSameType (a b : jsval) (key : string) : M unit :=
  ia ← Array_isArray a;
  ib ← Array_isArray b;
  if negb (ia && ib) && negb (negb ia && negb ib) then
    let type := if ib then "array" else "object" in
    throw (Error ("Key '" +:+ key +:+ "' already holding an " +:+ type
                  +:+ ". Either clear storage or continue to use an " +:+ type +:+ "."))
  else mret tt.

Definition safeLoad (key : string) (obj : jsval) : M jsval :=
  tmpObj ← load key;
  checkSameType obj tmpObj key;;
  mret tmpObj.

Definition safeLoadSync (key : string) (obj : jsval) : M jsval :=
  tmpObj ← loadSync key;
  checkSameType obj tmpObj key;;
  mret tmpObj.

Definition getHandler (key : string) : handler := Handler key.

Definition getHandlerSync (key : string) : handler := HandlerSync key.

Section Traps.

(** [Reflect.set(obj, prop, value)] and [Reflect.get(obj, prop)] on an
    object of the heap are the platform's. *)
Variable Reflect_set : object -> string -> value -> set_result.
Variable Reflect_get : object -> string -> value.

(** The [set] trap of a handler, called with the proxy's target. *)
Definition handler_set (h : handler) (obj : loc) (prop : string) (v : value) : M bool :=
  o ← deref obj;
  match Reflect_set o prop v with
  | SetThrows err => throw err
  | SetRejected => mret false
  | SetOk o' =>
      hp ← (fun w => (Return (heap w), w));
      set_heap (<[obj := o']> hp);;
      match h with
      | Handler key => save_start key (JRef obj);; mret true
      | HandlerSync key => saveSync key (JRef obj);; mret true
      end
  end.

(** [b[prop] = v] on what a remember function returned.  On a proxy the
    trap runs; on a plain object the assignment is [Reflect.set] alone. *)
Definition assign (b : live) (prop : string) (v : value) : M bool :=
  match b with
  | Proxy target h => handler_set h target prop v
  | Plain (JRef l) =>
      o ← deref l;
      match Reflect_set o prop v with
      | SetThrows err => throw err
      | SetRejected => mret false
      | SetOk o' =>
          hp ← (fun w => (Return (heap w), w));
          set_heap (<[l := o']> hp);;
          mret true
      end
  | Plain (JPrim _) => stuck
  end.

(** [b[prop]]: a handler has no [get] trap, so a proxy reads its target. *)
Definition read (b : live) (prop : string) : M value :=
  match b with
  | Proxy target _ => o ← deref target; mret (Reflect_get o prop)
  | Plain (JRef l) => o ← deref l; mret (Reflect_get o prop)
  | Plain (JPrim _) => stuck
  end.

End Traps.

Definition createFilePath (key : string) : M Path.path :=
  c ← get_this;
  mret (Path.join (storageDir c) (key +:+ ".json")).

(** The checks run in this order: the type of the value, the key in the
    registry, the key as a file name.  The key is recorded before the ignore
    flag is looked at. *)
Definition checkInput (key : string) (obj : jsval) : M bool :=
  if negb (String.eqb (typeof obj) "object") then
    throw (Error ("Typeof object is '" +:+ typeof obj +:+ "', but must be 'object'."))
  else
    c ← get_this;
    if key_in key (keyToFileMap c) then
      throw (Error ("'" +:+ key +:+ "' already being remembered."))
    else if negb (ValidFilename.isValidFilename key) then
      throw (Error ("Invalid key: '" +:+ key +:+ "'. Must create a valid filename."))
    else
      p ← createFilePath key;
      c ← get_this;
      set_this (mkCashola (ignoreCashola c) (storageDir c) (<[key := p]> (keyToFileMap c)));;
      c ← get_this;
      if ignoreCashola c then mret false else mret true.

(** The argument of [configure]; a field left out is [None]. *)
Record Config : Type := mkConfig {
  cfg_storageDir : option string;
  cfg_ignoreCasholaEnvVar : option string;
  cfg_ignoreCashola : option bool
}.

(** A string in the place of a condition: set and not empty. *)
Definition truthy (o : option string) : bool :=
  match o with
  | Some t => negb (String.eqb t "")
  | None => false
  end.

Definition configure (config : Config) : M unit := fun w =>
  let c := this w in
  let c1 :=
    if truthy (cfg_storageDir config)
    then mkCashola (ignoreCashola c) (default "" (cfg_storageDir config)) (keyToFileMap c)
    else c in
  let c2 :=
    if truthy (cfg_ignoreCasholaEnvVar config)
    then mkCashola
           (bool_decide (env w !! default "" (cfg_ignoreCasholaEnvVar config) = Some "true"))
           (storageDir c1) (keyToFileMap c1)
    else c1 in
  let c3 :=
    match cfg_ignoreCashola config with
    | Some true => mkCashola true (storageDir c2) (keyToFileMap c2)
    | _ => c2
    end in
  set_this c3 w.

(** A parameter with a default: [undefined] is replaced by a new object. *)
Definition default_arg (obj : jsval) (dflt : body) : M jsval :=
  match obj with
  | JPrim PUndefined => alloc (Object dflt Extensible)
  | _ => mret obj
  end.

(** The four remember functions.  What the load throws is caught; on
    [ENOENT] the value at hand is saved, and in every case the function goes
    on to wrap the value at hand, which is the loaded one only when the load
    returned. *)
Definition remember (key : string) (obj : jsval) : M live :=
  obj ← default_arg obj (BObj []);
  ok ← checkInput key obj;
  if negb ok then mret (Plain obj)
  else
    obj ← try_catch (safeLoad key obj)
            (fun err => if has_code err Fs.ENOENT then save key obj;; mret obj
                        else mret obj);
    new_Proxy obj (getHandler key).

Definition rememberSync (key : string) (obj : jsval) : M live :=
  obj ← default_arg obj (BObj []);
  ok ← checkInput key obj;
  if negb ok then mret (Plain obj)
  else
    obj ← try_catch (safeLoadSync key obj)
            (fun err => if has_code err Fs.ENOENT then saveSync key obj;; mret obj
                        else mret obj);
    new_Proxy obj (getHandlerSync key).

Definition rememberArray (key : string) (obj : jsval) : M live :=
  obj ← default_arg obj (BArr []);
  ok ← checkInput key obj;
  if negb ok then mret (Plain obj)
  else
    obj ← try_catch (safeLoad key obj)
            (fun err => if has_code err Fs.ENOENT then save key obj;; mret obj
                        else mret obj);
    new_Proxy obj (getHandler key).

Definition rememberArraySync (key : string) (obj : jsval) : M live :=
  obj ← default_arg obj (BArr []);
  ok ← checkInput key obj;
  if negb ok then mret (Plain obj)
  else
    obj ← try_catch (safeLoadSync key obj)
            (fun err => if has_code err Fs.ENOENT then saveSync key obj;; mret obj
                        else mret obj);
    new_Proxy obj (getHandlerSync key).

(** [clearSync] and [clear] go by the storage directory of the moment. *)
Definition clearSync (key : string) : M unit :=
  p ← createFilePath key;
  rm p.

Definition clear (key : string) : M unit :=
  p ← createFilePath key;
  rm p.

Definition clearAllSync : M unit :=
  c ← get_this;
  rm_recursive_force (storageDir c).

Definition clearAll : M unit :=
  c ← get_this;
  rm_recursive_force (storageDir c).

(** *** The errors by the names the specification gives them *)
Definition TypeKindError (obj : jsval) : error :=
  Error ("Typeof object is '" +:+ typeof obj +:+ "', but must be 'object'.").

Definition DuplicateKeyError (key : string) : error :=
  Error ("'" +:+ key +:+ "' already being remembered.").

Definition InvalidKeyError (key : string) : error :=
  Error ("Invalid key: '" +:+ key +:+ "'. Must create a valid filename.").

Definition ShapeMismatchError (key type : string) : error :=
  Error ("Key '" +:+ key +:+ "' already holding an " +:+ type
         +:+ ". Either clear storage or continue to use an " +:+ type +:+ ".").


(** *** Vocabulary for the statements below *)

(** The four remember functions. *)
Inductive entry : Type := Remember | RememberSync | RememberArray | RememberArraySync.

Definition run (e : entry) : string -> jsval -> M live :=
  match e with
  | Remember => remember
  | RememberSync => rememberSync
  | RememberArray => rememberArray
  | RememberArraySync => rememberArraySync
  end.

Definition handler_of (e : entry) (key : string) : handler :=
  match e with
  | Remember | RememberArray => getHandler key
  | RememberSync | RememberArraySync => getHandlerSync key
  end.

Definition with_this (c : Cashola) (w : World) : World :=
  mkWorld c (disk w) (heap w) (env w) (pending w).

Definition with_disk (d : Fs.disk) (w : World) : World :=
  mkWorld (this w) d (heap w) (env w) (pending w).

Definition with_heap (h : list object) (w : World) : World :=
  mkWorld (this w) (disk w) h (env w) (pending w).

(** The location [createFilePath] gives [key] under the configuration of [w]. *)
Definition location (w : World) (key : string) : Path.path :=
  Path.join (storageDir (this w)) (key +:+ ".json").

(** [w] with [key] recorded in the registry at its location. *)
Definition registered (key : string) (w : World) : World :=
  with_this (mkCashola (ignoreCashola (this w)) (storageDir (this w))
                       (<[key := location w key]> (keyToFileMap (this w)))) w.

(** A process that has just started: a new [Cashola] with nothing on the
    heap, over a given disk. *)
Definition fresh_process (e : gmap string string) (d : Fs.disk) : World :=
  mkWorld (new_Cashola e) d [] e [].

Definition is_array (b : body) : bool :=
  match b with
  | BArr _ => true
  | BObj _ => false
  end.

Definition body_of_value (v : value) : option body :=
  match v with
  | VArr items => Some (BArr items)
  | VObj fields => Some (BObj fields)
  | VPrim _ => None
  end.

(** An instance of [Reflect.set] for the examples: assignment to the own
    fields of a plain object.  A field that is there is overwritten unless
    the object is frozen, a new one is added at the end when the object is
    extensible.  The rules of array indices and of [length] are not part of
    it: it refuses every assignment to an array. *)
Definition set_own_field (o : object) (prop : string) (v : value) : set_result :=
  match contents o with
  | BObj fields =>
      if bool_decide (prop ∈ map fst fields) then
        match level o with
        | Frozen => SetRejected
        | _ => SetOk (Object (BObj (JSON.set_field fields prop v)) (level o))
        end
      else
        match level o with
        | Extensible => SetOk (Object (BObj (JSON.set_field fields prop v)) (level o))
        | _ => SetRejected
        end
  | BArr _ => SetRejected
  end.

(** The matching instance of [Reflect.get]: the own fields of a plain
    object. *)
Definition get_own_field (o : object) (prop : string) : value :=
  match contents o with
  | BObj fields =>
      match list_find (fun kv : string * value => fst kv = prop) fields with
      | Some (_, kv) => snd kv
      | None => VPrim PUndefined
      end
  | BArr _ => VPrim PUndefined
  end.
Definition default_body (e : entry) : body :=
  match e with
  | Remember | RememberSync => BObj []
  | RememberArray | RememberArraySync => BArr []
  end.

(** What a remember function does once the input check has let it through. *)
Definition resolve_and_wrap (e : entry) (key : string) (obj : jsval) : M live :=
  obj' ← try_catch (safeLoad key obj)
            (fun err => if has_code err Fs.ENOENT then save key obj;; mret obj
                        else mret obj);
  new_Proxy obj' (handler_of e key).

(** *** Worlds for the examples *)

Definition empty_disk : Fs.disk := Fs.Disk ∅ ∅.

Definition no_env : gmap string string := ∅.

Definition ignore_env : gmap string string := {[ "IGNORE_CASHOLA" := "true" ]}.

Definition plain (fields : list (string * value)) : object := Object (BObj fields) Extensible.

Definition array (items : list value) : object := Object (BArr items) Extensible.

(** A process that has just started and has built the objects [objs]. *)
Definition process_with (e : gmap string string) (d : Fs.disk) (objs : list object) : World :=
  with_heap objs (fresh_process e d).

(** A segment that names an entry of a directory: not empty, not [.] or
    [..], and without a slash. *)
Definition plain_segment (f : string) : bool :=
  forallb (fun c => negb (Ascii.eqb c "/")) (list_ascii_of_string f)
  && negb (String.eqb f "") && negb (String.eqb f ".") && negb (String.eqb f "..").

(** *** Frames: what a call leaves as it was *)

(** Every run of [m] takes a world to one that [R] relates to it. *)
Definition preserves {A : Type} (R : World -> World -> Prop) (m : M A) : Prop :=
  forall w, R w (snd (m w)).

(** The registry and the configuration are the same. *)
Definition same_this (w w' : World) : Prop := this w' = this w.

(** Nothing but the disk differs. *)
Definition disk_only (w w' : World) : Prop :=
  this w' = this w /\ heap w' = heap w /\ env w' = env w /\ pending w' = pending w.

(** No file other than the one at [p] differs. *)
Definition files_except (p : Path.path) (w w' : World) : Prop :=
  forall q, q <> p -> Fs.files (disk w') !! q = Fs.files (disk w) !! q.

(** The text [JSON.stringify] gives for an object. *)
Definition text_of (b : body) : string :=
  default EmptyString (JSON.stringify_value (value_of_body b)).

(** [w] with one more pending write. *)
Definition with_pending (t : pending_write) (w : World) : World :=
  mkWorld (this w) (disk w) (heap w) (env w) (pending w ++ [t]).

(** *** Measures for the parser *)

(** The depth of calls the parser needs for a value. *)
Fixpoint weight (v : value) : nat :=
  match v with
  | VPrim _ => 1
  | VArr items => S (list_sum (map (fun x => S (weight x)) items))
  | VObj fields => S (list_sum (map (fun kv : string * value => S (weight (snd kv))) fields))
  end.

(** What may follow the text of a value: not a digit, and not the start of a
    fraction or of an exponent. *)
Definition delimited (rest : string) : bool :=
  match rest with
  | EmptyString => true
  | String c _ => negb (JSON.is_digit c) && negb (JSON.starts_fraction rest)
  end.

(** The characters a value's text can start with. *)
Definition value_start (c : ascii) : bool :=
  Ascii.eqb c "[" || Ascii.eqb c "{" || Ascii.eqb c JSON.dquote || Ascii.eqb c "-"
  || JSON.is_digit c || Ascii.eqb c "n" || Ascii.eqb c "t" || Ascii.eqb c "f".

(** * Facts *)

(** ** The steps of a bind *)

Lemma run_unfold e key obj :
  run e key obj =
  (obj0 ← default_arg obj (default_body e);
   ok ← checkInput key obj0;
   if negb ok then mret (Plain obj0) else resolve_and_wrap e key obj0).
Proof. destruct e; reflexivity. Qed.

Lemma checkInput_typekind key obj w :
  typeof obj <> "object" ->
  checkInput key obj w = (Throw (TypeKindError obj), w).
Proof.
  intros Ht. unfold checkInput.
  destruct (String.eqb_spec (typeof obj) "object") as [E|_]; [by destruct Ht|].
  reflexivity.
Qed.

Lemma checkInput_duplicate key obj w :
  typeof obj = "object" ->
  key_in key (keyToFileMap (this w)) = true ->
  checkInput key obj w = (Throw (DuplicateKeyError key), w).
Proof.
  intros Ht Hk. unfold checkInput. rewrite Ht. simpl.
  unfold mbind, M_bind, get_this. rewrite Hk. reflexivity.
Qed.

Lemma checkInput_invalid key obj w :
  typeof obj = "object" ->
  key_in key (keyToFileMap (this w)) = false ->
  ValidFilename.isValidFilename key = false ->
  checkInput key obj w = (Throw (InvalidKeyError key), w).
Proof.
  intros Ht Hk Hv. unfold checkInput. rewrite Ht. simpl.
  unfold mbind, M_bind, get_this. rewrite Hk, Hv. reflexivity.
Qed.

Lemma checkInput_pass key obj w :
  typeof obj = "object" ->
  key_in key (keyToFileMap (this w)) = false ->
  ValidFilename.isValidFilename key = true ->
  checkInput key obj w = (Return (negb (ignoreCashola (this w))), registered key w).
Proof.
  intros Ht Hk Hv. unfold checkInput. rewrite Ht. simpl.
  unfold mbind, M_bind, get_this. rewrite Hk, Hv. simpl.
  unfold registered, with_this, location.
  destruct (ignoreCashola (this w)); reflexivity.
Qed.

Lemma default_arg_object obj dflt w :
  typeof obj = "object" -> default_arg obj dflt w = (Return obj, w).
Proof. by destruct obj as [[]|]. Qed.

(** ** Frames *)

Section Frame.

Variable R : World -> World -> Prop.
Hypothesis R_refl : forall w, R w w.
Hypothesis R_trans : forall w1 w2 w3, R w1 w2 -> R w2 w3 -> R w1 w3.

Lemma preserves_ret {A : Type} (a : A) : preserves R (mret a).
Proof. intros w. apply R_refl. Qed.

Lemma preserves_throw {A : Type} (err : error) : preserves R (@throw A err).
Proof. intros w. apply R_refl. Qed.

Lemma preserves_stuck {A : Type} : preserves R (@stuck A).
Proof. intros w. apply R_refl. Qed.

Lemma preserves_bind {A B : Type} (m : M A) (f : A -> M B) :
  preserves R m -> (forall a, preserves R (f a)) -> preserves R (m ≫= f).
Proof.
  intros Hm Hf w. unfold mbind, M_bind. specialize (Hm w).
  destruct (m w) as [[a| |] w']; simpl in *; [|done..].
  eapply R_trans; [exact Hm|apply Hf].
Qed.

Lemma preserves_try_catch {A : Type} (m : M A) (h : error -> M A) :
  preserves R m -> (forall err, preserves R (h err)) -> preserves R (try_catch m h).
Proof.
  intros Hm Hh w. unfold try_catch. specialize (Hm w).
  destruct (m w) as [[a| |] w']; simpl in *; [done| |done].
  eapply R_trans; [exact Hm|apply Hh].
Qed.

Lemma preserves_get_this : preserves R get_this.
Proof. intros w. apply R_refl. Qed.

Lemma preserves_of_fs {A : Type} (r : Fs.errcode + A) : preserves R (of_fs r).
Proof. intros w. destruct r; apply R_refl. Qed.

Lemma preserves_deref (l : loc) : preserves R (deref l).
Proof. intros w. unfold deref. destruct (heap w !! l); apply R_refl. Qed.

Lemma preserves_stringify (obj : jsval) : preserves R (JSON_stringify obj).
Proof.
  destruct obj; simpl; [apply preserves_ret|].
  apply preserves_bind; [apply preserves_deref|intros; apply preserves_ret].
Qed.

Lemma preserves_isArray (v : jsval) : preserves R (Array_isArray v).
Proof.
  destruct v; simpl; [apply preserves_ret|].
  apply preserves_bind; [apply preserves_deref|intros; apply preserves_ret].
Qed.

Lemma preserves_checkSameType (a b : jsval) (key : string) :
  preserves R (checkSameType a b key).
Proof.
  unfold checkSameType.
  apply preserves_bind; [apply preserves_isArray|intros ia].
  apply preserves_bind; [apply preserves_isArray|intros ib].
  destruct (_ && _); [apply preserves_throw|apply preserves_ret].
Qed.

Lemma preserves_new_Proxy (target : jsval) (h : handler) : preserves R (new_Proxy target h).
Proof. destruct target; [apply preserves_throw|apply preserves_ret]. Qed.

(** What the calls of the file system preserve, [save] preserves. *)
Hypothesis R_readFile : forall file, preserves R (readFile file).
Hypothesis R_writeFile : forall file data, preserves R (writeFile file data).
Hypothesis R_mkdir : forall dir, preserves R (mkdir dir).

Lemma preserves_retry (key : string) (str : option string) (err : error) :
  preserves R (ENOENT_retry key str err).
Proof.
  unfold ENOENT_retry. destruct (has_code err Fs.ENOENT); [|apply preserves_ret].
  apply preserves_bind; [apply preserves_get_this|intros c].
  apply preserves_bind; [apply R_mkdir|intros _].
  apply preserves_bind; [apply preserves_get_this|intros c'].
  apply R_writeFile.
Qed.

Lemma preserves_save (key : string) (obj : jsval) : preserves R (save key obj).
Proof.
  unfold save. apply preserves_bind; [apply preserves_stringify|intros str].
  apply preserves_try_catch; [|intros; apply preserves_retry].
  apply preserves_bind; [apply preserves_get_this|intros; apply R_writeFile].
Qed.

Lemma preserves_save_settle (t : pending_write) : preserves R (save_settle t).
Proof.
  unfold save_settle. apply preserves_try_catch; [apply R_writeFile|].
  intros; apply preserves_retry.
Qed.

(** And with what [alloc] preserves, a whole bind past the input check. *)
Hypothesis R_alloc : forall o, preserves R (alloc o).

Lemma preserves_parse (str : string) : preserves R (JSON_parse str).
Proof.
  unfold JSON_parse. destruct (JSON.parse_text str) as [[p|items|fields] rest| |];
    auto using preserves_ret, preserves_throw, preserves_stuck.
Qed.

Lemma preserves_safeLoad (key : string) (obj : jsval) : preserves R (safeLoad key obj).
Proof.
  unfold safeLoad, load.
  apply preserves_bind; [|intros tmpObj].
  - apply preserves_bind; [apply preserves_get_this|intros c].
    apply preserves_bind; [apply R_readFile|intros str].
    apply preserves_parse.
  - apply preserves_bind; [apply preserves_checkSameType|intros _].
    apply preserves_ret.
Qed.

Lemma preserves_resolve_and_wrap (e : entry) (key : string) (obj : jsval) :
  preserves R (resolve_and_wrap e key obj).
Proof.
  unfold resolve_and_wrap.
  apply preserves_bind; [|intros; apply preserves_new_Proxy].
  apply preserves_try_catch; [apply preserves_safeLoad|intros err].
  destruct (has_code err Fs.ENOENT); [|apply preserves_ret].
  apply preserves_bind; [apply preserves_save|intros; apply preserves_ret].
Qed.

End Frame.

Lemma same_this_refl w : same_this w w.
Proof. done. Qed.

Lemma same_this_trans w1 w2 w3 : same_this w1 w2 -> same_this w2 w3 -> same_this w1 w3.
Proof. unfold same_this. congruence. Qed.

Lemma disk_only_refl w : disk_only w w.
Proof. done. Qed.

Lemma disk_only_trans w1 w2 w3 : disk_only w1 w2 -> disk_only w2 w3 -> disk_only w1 w3.
Proof. unfold disk_only. intuition congruence. Qed.

Lemma files_except_refl p w : files_except p w w.
Proof. done. Qed.

Lemma files_except_trans p w1 w2 w3 :
  files_except p w1 w2 -> files_except p w2 w3 -> files_except p w1 w3.
Proof. intros H1 H2 q Hq. by rewrite H2, H1. Qed.

Lemma disk_only_same_this w w' : disk_only w w' -> same_this w w'.
Proof. by intros [? _]. Qed.

Lemma disk_only_readFile file : preserves disk_only (readFile file).
Proof.
  intros w. unfold readFile. destruct file; [|done].
  by apply preserves_of_fs.
Qed.

Lemma disk_only_writeFile file data : preserves disk_only (writeFile file data).
Proof.
  intros w. unfold writeFile. destruct file, data; try done.
  unfold mbind, M_bind, of_fs. by destruct (Fs.writeFile _ _ _).
Qed.

Lemma disk_only_mkdir dir : preserves disk_only (mkdir dir).
Proof.
  intros w. unfold mkdir, mbind, M_bind, of_fs. by destruct (Fs.mkdir _ _).
Qed.

Lemma disk_only_save key obj : preserves disk_only (save key obj).
Proof.
  exact (preserves_save disk_only disk_only_refl disk_only_trans
           disk_only_writeFile disk_only_mkdir key obj).
Qed.

Lemma same_this_resolve_and_wrap e key obj : preserves same_this (resolve_and_wrap e key obj).
Proof.
  apply preserves_resolve_and_wrap; [exact same_this_refl|exact same_this_trans|..].
  - intros file w. apply disk_only_same_this, disk_only_readFile.
  - intros file data w. apply disk_only_same_this, disk_only_writeFile.
  - intros dir w. apply disk_only_same_this, disk_only_mkdir.
  - by intros o w.
Qed.

Lemma files_except_writeFile p data :
  preserves (files_except p) (writeFile (Some p) data).
Proof.
  intros w q Hq. unfold writeFile. destruct data as [text|]; [|done].
  unfold mbind, M_bind, of_fs, Fs.writeFile.
  destruct (Fs.blocked (disk w) p); [done|].
  destruct (Fs.is_file (disk w) p); simpl; [by rewrite lookup_insert_ne|].
  destruct (Fs.is_dir (disk w) p); [done|].
  destruct (Fs.is_dir (disk w) (Path.dirname p)); simpl; [by rewrite lookup_insert_ne|done].
Qed.

Lemma files_except_mkdir p dir : preserves (files_except p) (mkdir dir).
Proof.
  intros w q Hq. unfold mkdir, mbind, M_bind, of_fs, Fs.mkdir.
  destruct (Fs.blocked (disk w) _); [done|].
  by destruct (Fs.is_file (disk w) _).
Qed.

(** [save] writes to no file but the one recorded for the key. *)
Lemma save_writes_only_the_recorded_file key obj p w :
  keyToFileMap (this w) !! key = Some p ->
  files_except p w (snd (save key obj w)).
Proof.
  intros Hp. unfold save, mbind at 1, M_bind at 1.
  pose proof (preserves_stringify disk_only disk_only_refl disk_only_trans obj w) as Hs.
  pose proof (preserves_stringify (files_except p) (files_except_refl p)
                (files_except_trans p) obj w) as Hf.
  destruct (JSON_stringify obj w) as [[str| |] w0]; simpl in *; try done.
  destruct Hs as [Hthis _].
  eapply files_except_trans; [exact Hf|].
  unfold try_catch, mbind at 1, M_bind at 1, get_this. rewrite Hthis, Hp.
  pose proof (files_except_writeFile p str w0) as Hw.
  pose proof (disk_only_writeFile (Some p) str w0) as [Hthis1 _].
  destruct (writeFile (Some p) str w0) as [[[]|err|] w1]; simpl in *; try done.
  eapply files_except_trans; [exact Hw|].
  unfold ENOENT_retry. destruct (has_code err Fs.ENOENT); [|done].
  unfold mbind at 1, M_bind at 1, get_this.
  unfold mbind at 1, M_bind at 1.
  pose proof (files_except_mkdir p (storageDir (this w1)) w1) as Hm.
  pose proof (disk_only_mkdir (storageDir (this w1)) w1) as [Hthis2 _].
  destruct (mkdir (storageDir (this w1)) w1) as [[[]|err'|] w2]; simpl in *; try done.
  eapply files_except_trans; [exact Hm|].
  unfold mbind at 1, M_bind at 1. rewrite Hthis2, Hthis1, Hthis, Hp.
  apply files_except_writeFile.
Qed.

Lemma key_in_weaken key (m1 m2 : gmap string Path.path) :
  m1 ⊆ m2 -> key_in key m1 = true -> key_in key m2 = true.
Proof.
  unfold key_in. intros Hsub. rewrite !orb_true_iff, !bool_decide_eq_true.
  intros [[p Hp]|H]; [left|by right].
  exists p. by eapply lookup_weaken.
Qed.

Lemma key_in_registered key w :
  key_in key (keyToFileMap (this (registered key w))) = true.
Proof.
  unfold key_in, registered. simpl. rewrite lookup_insert_eq.
  by rewrite bool_decide_eq_true_2.
Qed.

(** ** Strings *)

Lemma append_nil_l (t : string) : EmptyString +:+ t = t.
Proof. reflexivity. Qed.

Lemma append_cons (c : ascii) (s t : string) : String c s +:+ t = String c (s +:+ t).
Proof. reflexivity. Qed.

Lemma append_nil_r (s : string) : s +:+ EmptyString = s.
Proof. induction s as [|c s IH]; [done|]. by rewrite append_cons, IH. Qed.

Lemma append_assoc (s t u : string) : (s +:+ t) +:+ u = s +:+ (t +:+ u).
Proof. induction s as [|c s IH]; [done|]. by rewrite !append_cons, IH. Qed.

Lemma length_append (s t : string) :
  String.length (s +:+ t) = (String.length s + String.length t)%nat.
Proof. induction s as [|c s IH]; [done|]. rewrite append_cons. simpl. by rewrite IH. Qed.

(** ** Paths *)

Lemma split_slash_plain (f : string) :
  forallb (fun c => negb (Ascii.eqb c "/")) (list_ascii_of_string f) = true ->
  Path.split_slash f = [f].
Proof.
  induction f as [|c f IH]; simpl; [done|].
  rewrite andb_true_iff, negb_true_iff. intros [Hc Hf].
  rewrite Hc, (IH Hf). done.
Qed.

Lemma split_slash_nonempty (s : string) : Path.split_slash s <> [].
Proof.
  destruct s as [|c s]; simpl; [done|].
  destruct (Ascii.eqb c "/"); [done|]. by destruct (Path.split_slash s).
Qed.

Lemma split_slash_snoc (d f : string) :
  forallb (fun c => negb (Ascii.eqb c "/")) (list_ascii_of_string f) = true ->
  Path.split_slash (d +:+ "/" +:+ f) = Path.split_slash d ++ [f].
Proof.
  intros Hf. induction d as [|c d IH].
  - rewrite append_nil_l, append_cons, append_nil_l. simpl.
    rewrite split_slash_plain by done. reflexivity.
  - rewrite append_cons. simpl. rewrite IH. destruct (Ascii.eqb c "/"); [done|].
    pose proof (split_slash_nonempty d). by destruct (Path.split_slash d).
Qed.

Lemma plain_segment_spec (f : string) :
  plain_segment f = true ->
  forallb (fun c => negb (Ascii.eqb c "/")) (list_ascii_of_string f) = true
  /\ String.eqb f "" = false /\ String.eqb f "." = false /\ String.eqb f ".." = false.
Proof.
  unfold plain_segment. rewrite !andb_true_iff, !negb_true_iff. tauto.
Qed.

Lemma normalize_segments_snoc (absolute : bool) (segs stack : list string) (f : string) :
  plain_segment f = true ->
  Path.normalize_segments absolute stack (segs ++ [f])
  = Path.normalize_segments absolute stack segs ++ [f].
Proof.
  intros Hf. destruct (plain_segment_spec f Hf) as (_ & He & Hd & Hdd).
  revert stack. induction segs as [|seg segs IH]; intros stack; simpl.
  - rewrite He, Hd, Hdd. done.
  - destruct (String.eqb seg "" || String.eqb seg "."); [apply IH|].
    destruct (String.eqb seg "..").
    + destruct stack as [|top stack']; [destruct absolute; apply IH|].
      destruct (String.eqb top ".."); apply IH.
    + apply IH.
Qed.

Lemma is_absolute_app (d t : string) :
  d <> EmptyString -> Path.is_absolute (d +:+ t) = Path.is_absolute d.
Proof. destruct d; [done|]. by rewrite append_cons. Qed.

(** The location of an entry [f] of the directory [d]. *)
Lemma join_plain (d f : string) :
  plain_segment f = true -> Path.join d f = Path.resolve d ++ [f].
Proof.
  intros Hf. destruct (plain_segment_spec f Hf) as (Hs & He & Hd & Hdd).
  unfold Path.join. rewrite He.
  destruct (String.eqb_spec d "") as [->|Hne].
  - unfold Path.resolve.
    assert (Path.is_absolute f = false) as ->.
    { destruct f as [|c f]; [done|]. simpl in *.
      apply andb_true_iff in Hs as [Hc _]. by apply negb_true_iff in Hc. }
    rewrite (split_slash_plain f Hs). simpl. by rewrite He, Hd, Hdd.
  - unfold Path.resolve. rewrite is_absolute_app by done.
    rewrite split_slash_snoc by done.
    rewrite normalize_segments_snoc by done. by rewrite app_assoc.
Qed.

Lemma forallb_app_ascii (P : ascii -> bool) (a b : string) :
  forallb P (list_ascii_of_string (a +:+ b))
  = forallb P (list_ascii_of_string a) && forallb P (list_ascii_of_string b).
Proof.
  induction a as [|c a IH]; [done|]. rewrite append_cons. simpl.
  by rewrite IH, andb_assoc.
Qed.

Lemma valid_key_has_no_slash (key : string) :
  ValidFilename.isValidFilename key = true ->
  forallb (fun c => negb (Ascii.eqb c "/")) (list_ascii_of_string key) = true.
Proof.
  unfold ValidFilename.isValidFilename. rewrite !andb_true_iff, !negb_true_iff.
  intros (((((_ & _) & Hres) & _) & _) & _).
  induction key as [|c key IH]; simpl in *; [done|].
  apply orb_false_iff in Hres as [Hc Hres]. rewrite (IH Hres), andb_true_r.
  unfold ValidFilename.reserved_char in Hc.
  destruct (Ascii.eqb c "/"); [|done].
  rewrite ?orb_true_r in Hc. simpl in Hc. by rewrite ?orb_true_r in Hc.
Qed.

Lemma eqb_suffix_false (key t : string) :
  (String.length t < 5)%nat -> String.eqb (key +:+ ".json") t = false.
Proof.
  intros Hlen. apply String.eqb_neq. intros Heq.
  apply (f_equal String.length) in Heq. rewrite length_append in Heq.
  simpl in Heq. lia.
Qed.

(** The file name a valid key gives is an entry of the storage directory. *)
Lemma valid_key_file_is_plain (key : string) :
  ValidFilename.isValidFilename key = true -> plain_segment (key +:+ ".json") = true.
Proof.
  intros Hv. unfold plain_segment.
  rewrite forallb_app_ascii, (valid_key_has_no_slash key Hv).
  rewrite !eqb_suffix_false by (simpl; lia). done.
Qed.

Lemma location_in_storageDir (w : World) (key : string) :
  ValidFilename.isValidFilename key = true ->
  location w key = Path.resolve (storageDir (this w)) ++ [key +:+ ".json"].
Proof. intros Hv. unfold location. by rewrite join_plain by by apply valid_key_file_is_plain. Qed.

(** ** JSON: the text of a value parses back to the value *)

Module JSONFacts.

Import JSON.

Lemma parse_chars_escape_char (c : ascii) (rest : string) :
  parse_chars (escape_char c +:+ rest) = cons_char c (parse_chars rest).
Proof. destruct c as [[] [] [] [] [] [] [] []]; reflexivity. Qed.

Lemma parse_chars_escape (s rest : string) :
  parse_chars (escape s +:+ String dquote rest) = Parsed s rest.
Proof.
  induction s as [|c s IH]; [reflexivity|].
  simpl escape. rewrite append_assoc, parse_chars_escape_char, IH. reflexivity.
Qed.

Lemma parse_chars_quote (s rest : string) :
  quote s +:+ rest = String dquote (escape s +:+ String dquote rest)
  /\ parse_chars (escape s +:+ String dquote rest) = Parsed s rest.
Proof.
  split; [|apply parse_chars_escape].
  unfold quote. by rewrite append_cons, append_assoc.
Qed.

(** *** Numbers *)

Lemma is_digit_uint_of_char (d : Decimal.uint) :
  forall c s, NilEmpty.string_of_uint d = String c s -> is_digit c = true.
Proof. destruct d; simpl; intros c s [= <- _]; reflexivity. Qed.

Lemma span_digits_string_of_uint (d : Decimal.uint) (rest : string) :
  match rest with
  | EmptyString => True
  | String c _ => is_digit c = false
  end ->
  span_digits (NilEmpty.string_of_uint d +:+ rest) = (NilEmpty.string_of_uint d, rest).
Proof.
  intros Hrest. induction d; simpl NilEmpty.string_of_uint;
    rewrite ?append_cons; simpl; rewrite ?IHd; try reflexivity.
  destruct rest as [|c rest]; [reflexivity|]. simpl. by rewrite Hrest.
Qed.

Lemma to_uint_normal (n : N) : Decimal.unorm (N.to_uint n) = N.to_uint n.
Proof. by rewrite <- (DecimalN.Unsigned.to_of (N.to_uint n)), DecimalN.Unsigned.of_to. Qed.

Lemma to_uint_nonnil (n : N) : N.to_uint n <> Decimal.Nil.
Proof. rewrite <- to_uint_normal. apply unorm_nonnil. Qed.

Lemma digits_unfold (n : N) : digits n = NilEmpty.string_of_uint (N.to_uint n).
Proof.
  unfold digits, NilZero.string_of_uint.
  pose proof (to_uint_nonnil n). by destruct (N.to_uint n).
Qed.

(** No zero in front, but for zero itself. *)
Lemma to_uint_leading_zero (n : N) (d' : Decimal.uint) :
  N.to_uint n = Decimal.D0 d' -> d' = Decimal.Nil.
Proof.
  intros Hd. pose proof (to_uint_normal n) as Hn. rewrite Hd in Hn.
  unfold Decimal.unorm in Hn. simpl in Hn.
  destruct (Decimal.nzhead d') eqn:Hz; try discriminate Hn.
  - by injection Hn.
  - by apply nzhead_nonzero in Hz.
Qed.

Lemma parse_digits_digits (neg : bool) (n : N) (rest : string) :
  delimited rest = true ->
  parse_digits neg (digits n +:+ rest)
  = Parsed (if neg then - Z.of_N n else Z.of_N n) rest.
Proof.
  intros Hrest. rewrite digits_unfold.
  assert (match rest with EmptyString => True | String c _ => is_digit c = false end
          /\ starts_fraction rest = false) as [Hd Hf].
  { destruct rest as [|c rest]; [done|]. unfold delimited in Hrest.
    apply andb_true_iff in Hrest as [H1 H2]. by rewrite !negb_true_iff in *. }
  pose proof (span_digits_string_of_uint (N.to_uint n) rest Hd) as Hspan.
  pose proof (to_uint_nonnil n) as Hnil.
  pose proof (NilZero.usu (N.to_uint n) Hnil) as Husu.
  pose proof (to_uint_leading_zero n) as Hlead.
  assert (NilZero.string_of_uint (N.to_uint n) = NilEmpty.string_of_uint (N.to_uint n))
    as Hsame by (unfold NilZero.string_of_uint; by destruct (N.to_uint n)).
  rewrite Hsame in Husu.
  unfold parse_digits. rewrite Hspan.
  destruct (NilEmpty.string_of_uint (N.to_uint n)) as [|c ds] eqn:Htext.
  { by destruct (N.to_uint n). }
  rewrite Hf, Husu, DecimalN.Unsigned.of_to.
  destruct (Ascii.eqb c "0") eqn:Hzero; [|reflexivity].
  apply Ascii.eqb_eq in Hzero as ->.
  destruct (N.to_uint n) as [|d'| | | | | | | | |] eqn:Hu; try discriminate Htext.
  rewrite (Hlead d' eq_refl) in Htext. injection Htext as <-. reflexivity.
Qed.

Lemma digits_start (n : N) : exists c s, digits n = String c s /\ is_digit c = true.
Proof.
  rewrite digits_unfold. pose proof (to_uint_nonnil n) as Hnil.
  destruct (NilEmpty.string_of_uint (N.to_uint n)) as [|c s] eqn:Htext.
  { by destruct (N.to_uint n). }
  exists c, s. split; [done|]. by eapply is_digit_uint_of_char.
Qed.

Lemma is_digit_not_minus (c : ascii) : is_digit c = true -> Ascii.eqb c "-" = false.
Proof. destruct c as [[] [] [] [] [] [] [] []]; try reflexivity; discriminate. Qed.

Lemma parse_number_string_of_Z (z : Z) (rest : string) :
  delimited rest = true ->
  parse_number (string_of_Z z +:+ rest) = Parsed z rest.
Proof.
  intros Hrest. unfold string_of_Z. destruct (Z.ltb_spec z 0) as [Hneg|Hpos].
  - rewrite append_cons. simpl. rewrite parse_digits_digits by done.
    f_equal. lia.
  - destruct (digits_start (Z.to_N z)) as (c & s & Htext & Hc).
    assert (parse_number (String c s +:+ rest) = parse_digits false (String c s +:+ rest))
      as Hsign.
    { rewrite append_cons. simpl. by rewrite (is_digit_not_minus c Hc). }
    rewrite Htext, Hsign, <- Htext.
    rewrite parse_digits_digits by done. f_equal. lia.
Qed.

Lemma string_of_Z_start (z : Z) :
  exists c s, string_of_Z z = String c s /\ (Ascii.eqb c "-" || is_digit c) = true.
Proof.
  unfold string_of_Z. destruct (z <? 0); [by eexists _, _|].
  destruct (digits_start (Z.to_N z)) as (c & s & -> & Hc).
  exists c, s. by rewrite Hc, orb_true_r.
Qed.

(** *** Values *)

Lemma skip_ws_start (c : ascii) (s : string) :
  is_ws c = false -> skip_ws (String c s) = String c s.
Proof. intros Hc. simpl. by rewrite Hc. Qed.

Lemma value_start_spec (c : ascii) :
  value_start c = true ->
  is_ws c = false /\ Ascii.eqb c "]" = false /\ Ascii.eqb c "}" = false.
Proof. destruct c as [[] [] [] [] [] [] [] []]; try discriminate; by intros _. Qed.

Lemma data_has_text (v : value) :
  is_data v = true -> exists text, stringify_value v = Some text.
Proof. destruct v as [[]| |]; simpl; try discriminate; eauto. Qed.

Lemma text_start (v : value) (text : string) :
  stringify_value v = Some text ->
  exists c s, text = String c s /\ value_start c = true.
Proof.
  destruct v as [[| |[]|n|t|]|items|fields]; simpl; intros [= <-]; try by eexists _, _.
  destruct (string_of_Z_start n) as (c & s & -> & Hc). exists c, s. split; [done|].
  unfold value_start. apply orb_true_iff in Hc as [-> | ->];
    by rewrite ?orb_true_r.
Qed.

Lemma delimited_start (c : ascii) (s : string) :
  Ascii.eqb c "," || Ascii.eqb c "]" || Ascii.eqb c "}" = true ->
  delimited (String c s) = true /\ is_ws c = false.
Proof.
  destruct c as [[] [] [] [] [] [] [] []]; try discriminate; by intros _.
Qed.

(** Fields with distinct names are built in the order they are read. *)
Lemma set_field_fresh (fields : list (string * value)) (k : string) (v : value) :
  k ∉ map fst fields -> set_field fields k v = fields ++ [(k, v)].
Proof.
  induction fields as [|[k' v'] fields IH]; simpl; [done|].
  rewrite not_elem_of_cons. intros [Hne Hk].
  destruct (String.eqb_spec k' k) as [->|_]; [done|]. by rewrite IH.
Qed.

Lemma build_object_app (acc ms : list (string * value)) :
  NoDup (map fst (acc ++ ms)) ->
  fold_left (fun acc kv => set_field acc (fst kv) (snd kv)) ms acc = acc ++ ms.
Proof.
  revert acc. induction ms as [|[k v] ms IH]; intros acc Hnd; simpl.
  - by rewrite app_nil_r.
  - rewrite set_field_fresh.
    + rewrite IH; rewrite <- app_assoc; done.
    + rewrite map_app in Hnd. apply NoDup_app in Hnd as (_ & Hdis & _).
      intros Hin. apply (Hdis k Hin). simpl. apply elem_of_cons. by left.
Qed.

Lemma build_object_distinct (ms : list (string * value)) :
  NoDup (map fst ms) -> build_object ms = ms.
Proof. intros Hnd. unfold build_object. by rewrite build_object_app. Qed.

Lemma parse_value_dispatch (fuel : nat) (c : ascii) (r : string) :
  is_ws c = false ->
  parse_value (S fuel) (String c r) =
    if Ascii.eqb c "[" then
      match skip_ws r with
      | String "]" r' => Parsed (VArr []) r'
      | _ => map_parse VArr (parse_elements fuel r)
      end
    else if Ascii.eqb c "{" then
      match skip_ws r with
      | String "}" r' => Parsed (VObj []) r'
      | _ => map_parse (fun ms => VObj (build_object ms)) (parse_members fuel r)
      end
    else if Ascii.eqb c dquote then map_parse (fun t => VStr t) (parse_chars r)
    else if Ascii.eqb c "-" || is_digit c then
      map_parse (fun n => VNum n) (parse_number (String c r))
    else parse_literal (String c r).
Proof. intros Hc. cbn [parse_value]. by rewrite (skip_ws_start c r Hc). Qed.

Section RoundTrip.

(** The statement for one value, as the induction carries it. *)
Let parses_back (v : value) : Prop :=
  is_data v = true ->
  forall text, stringify_value v = Some text ->
  forall fuel rest, (weight v <= fuel)%nat -> delimited rest = true ->
  parse_value fuel (text +:+ rest) = Parsed v rest.

Lemma parse_elements_back (items : list value) :
  Forall parses_back items ->
  forallb is_data items = true ->
  items <> [] ->
  forall fuel rest,
  (list_sum (map (fun x => S (weight x)) items) <= fuel)%nat ->
  parse_elements fuel
    (String.concat "," (map (fun x => default "null" (stringify_value x)) items)
     +:+ String "]" rest)
  = Parsed items rest.
Proof.
  induction 1 as [|x xs Hx _ IH]; [done|]. intros Hdata _ fuel rest Hfuel.
  simpl in Hdata. apply andb_true_iff in Hdata as [Hdx Hdxs].
  destruct (data_has_text x Hdx) as [tx Htx].
  simpl in Hfuel. destruct fuel as [|fuel]; [lia|].
  simpl map. rewrite Htx. simpl default.
  destruct xs as [|y ys].
  - simpl String.concat. simpl parse_elements.
    rewrite (Hx Hdx tx Htx fuel (String "]" rest)) by (done || lia).
    reflexivity.
  - change (String.concat "," (tx :: map _ (y :: ys)))
      with (tx +:+ "," +:+ String.concat ","
              (map (fun x => default "null" (stringify_value x)) (y :: ys))).
    rewrite !append_assoc, append_cons, append_nil_l.
    simpl parse_elements.
    rewrite (Hx Hdx tx Htx fuel) by (done || lia).
    simpl skip_ws. cbv iota. simpl (Ascii.eqb _ _). cbv iota.
    rewrite IH by (done || simpl in *; lia). reflexivity.
Qed.

Lemma member_texts (fields : list (string * value)) :
  forallb (fun kv : string * value => is_data (snd kv)) fields = true ->
  omap (fun kv : string * value =>
          (fun t => quote (fst kv) +:+ ":" +:+ t) <$> stringify_value (snd kv)) fields
  = map (fun kv : string * value =>
           quote (fst kv) +:+ ":" +:+ default "null" (stringify_value (snd kv))) fields.
Proof.
  induction fields as [|[k v] fields IH]; [done|]. simpl.
  rewrite andb_true_iff. intros [Hv Hrest].
  destruct (data_has_text v Hv) as [tv ->]. simpl. f_equal. by apply IH.
Qed.

Lemma parse_members_back (fields : list (string * value)) :
  Forall (fun kv => parses_back (snd kv)) fields ->
  forallb (fun kv : string * value => is_data (snd kv)) fields = true ->
  fields <> [] ->
  forall fuel rest,
  (list_sum (map (fun kv : string * value => S (weight (snd kv))) fields) <= fuel)%nat ->
  parse_members fuel
    (String.concat ","
       (map (fun kv : string * value =>
               quote (fst kv) +:+ ":" +:+ default "null" (stringify_value (snd kv)))
            fields)
     +:+ String "}" rest)
  = Parsed fields rest.
Proof.
  induction 1 as [|[k x] xs Hx _ IH]; [done|]. intros Hdata _ fuel rest Hfuel.
  simpl in Hdata, Hx. apply andb_true_iff in Hdata as [Hdx Hdxs].
  destruct (data_has_text x Hdx) as [tx Htx].
  simpl in Hfuel. destruct fuel as [|fuel]; [lia|].
  simpl map. rewrite Htx. simpl default.
  destruct xs as [|y ys].
  - simpl String.concat.
    rewrite !append_assoc.
    destruct (parse_chars_quote k (":" +:+ tx +:+ String "}" rest)) as [-> Hk].
    simpl parse_members. rewrite Hk.
    rewrite append_cons, append_nil_l. simpl skip_ws. cbv iota.
    rewrite (Hx Hdx tx Htx fuel (String "}" rest)) by (done || lia).
    reflexivity.
  - change (String.concat "," ((quote k +:+ ":" +:+ tx) :: map _ (y :: ys)))
      with ((quote k +:+ ":" +:+ tx) +:+ "," +:+ String.concat ","
              (map (fun kv : string * value =>
                      quote (fst kv) +:+ ":" +:+ default "null" (stringify_value (snd kv)))
                   (y :: ys))).
    rewrite !append_assoc.
    set (more := String.concat "," _ +:+ String "}" rest).
    destruct (parse_chars_quote k (":" +:+ tx +:+ "," +:+ more)) as [-> Hk].
    simpl parse_members. rewrite Hk.
    rewrite append_cons, append_nil_l. simpl skip_ws. cbv iota.
    rewrite (Hx Hdx tx Htx fuel) by (done || lia).
    rewrite append_cons, append_nil_l.
    simpl skip_ws. cbv iota. simpl (Ascii.eqb _ _). cbv iota.
    subst more. rewrite IH by (done || simpl in *; lia). reflexivity.
Qed.

(** The text of a data value parses back to the value, with what follows
    the text left over. *)
Lemma parse_value_back (v : value) : parses_back v.
Proof.
  induction v as [p|items IH|fields IH] using value_ind';
    intros Hdata text Htext fuel rest Hfuel Hrest;
    (destruct fuel as [|fuel]; [simpl in Hfuel; lia|]).
  - destruct p as [| |b|n|t|]; simpl in Htext, Hdata; try discriminate;
      injection Htext as <-.
    + reflexivity.
    + by destruct b.
    + destruct (string_of_Z_start n) as (c & s & Hn & Hc).
      pose proof (parse_number_string_of_Z n rest Hrest) as Hnum.
      rewrite Hn in *. rewrite append_cons in *.
      assert (value_start c = true) as Hstart.
      { unfold value_start. apply orb_true_iff in Hc as [-> | ->]; by rewrite ?orb_true_r. }
      destruct (value_start_spec c Hstart) as (Hws & _ & _).
      rewrite parse_value_dispatch by done.
      assert (Ascii.eqb c "[" = false /\ Ascii.eqb c "{" = false
              /\ Ascii.eqb c dquote = false) as (-> & -> & ->).
      { clear - Hc. destruct c as [[] [] [] [] [] [] [] []]; try discriminate; done. }
      rewrite Hc, Hnum. reflexivity.
    + unfold quote. rewrite append_cons, append_assoc, append_cons, append_nil_l.
      rewrite parse_value_dispatch by reflexivity.
      change (Ascii.eqb dquote "[") with false.
      change (Ascii.eqb dquote "{") with false.
      change (Ascii.eqb dquote dquote) with true. cbv iota.
      by rewrite parse_chars_escape.
  - simpl in Htext, Hdata, Hfuel. injection Htext as <-.
    rewrite !append_assoc, append_cons, append_nil_l, append_cons, append_nil_l.
    destruct items as [|x xs].
    + reflexivity.
    + destruct (data_has_text x) as [tx Htx].
      { simpl in Hdata. by apply andb_true_iff in Hdata as [? _]. }
      destruct (text_start x tx Htx) as (c & s & -> & Hc).
      destruct (value_start_spec c Hc) as (Hws & Hclose & _).
      assert (exists tail,
                String.concat "," (map (fun x => default "null" (stringify_value x)) (x :: xs))
                +:+ String "]" rest = String c tail) as [tail Htail].
      { simpl map. rewrite Htx. simpl default.
        destruct xs; simpl String.concat; rewrite ?append_assoc, append_cons; by eexists. }
      rewrite parse_value_dispatch by reflexivity.
      change (Ascii.eqb "[" "[") with true. cbv iota.
      rewrite Htail at 1. rewrite (skip_ws_start c tail Hws).
      assert (match String c tail with
              | String "]" r' => Parsed (VArr []) r'
              | _ => map_parse VArr
                       (parse_elements fuel
                          (String.concat ","
                             (map (fun x => default "null" (stringify_value x)) (x :: xs))
                           +:+ String "]" rest))
              end
              = map_parse VArr
                  (parse_elements fuel
                     (String.concat ","
                        (map (fun x => default "null" (stringify_value x)) (x :: xs))
                      +:+ String "]" rest))) as ->.
      { clear - Hclose. destruct c as [[] [] [] [] [] [] [] []]; try reflexivity;
          discriminate Hclose. }
      rewrite parse_elements_back by (done || lia). reflexivity.
  - simpl in Htext, Hdata, Hfuel. injection Htext as <-.
    apply andb_true_iff in Hdata as [Hdata Hnd]. apply bool_decide_eq_true in Hnd.
    rewrite (member_texts fields Hdata).
    rewrite !append_assoc, append_cons, append_nil_l, append_cons, append_nil_l.
    destruct fields as [|[k x] xs].
    + reflexivity.
    + assert (exists tail,
                String.concat ","
                  (map (fun kv : string * value =>
                          quote (fst kv) +:+ ":" +:+ default "null" (stringify_value (snd kv)))
                       ((k, x) :: xs))
                +:+ String "}" rest = String dquote tail) as [tail Htail].
      { simpl map. unfold quote at 1.
        destruct xs; simpl String.concat; rewrite ?append_assoc, append_cons; by eexists. }
      rewrite parse_value_dispatch by reflexivity.
      change (Ascii.eqb "{" "[") with false.
      change (Ascii.eqb "{" "{") with true. cbv iota.
      rewrite Htail at 1.
      change (skip_ws (String dquote tail)) with (String dquote tail).
      change (match String dquote tail with
              | String "}" r' => Parsed (VObj []) r'
              | _ => ?x
              end) with x.
      rewrite parse_members_back by (done || lia). simpl.
      by rewrite build_object_distinct.
Qed.

End RoundTrip.

Lemma length_concat (ts : list string) :
  (list_sum (map (fun t => S (String.length t)) ts)
   <= S (String.length (String.concat "," ts)))%nat.
Proof.
  induction ts as [|t [|t' ts] IH]; simpl in *; try lia.
  rewrite !length_append. simpl in *. lia.
Qed.

(** The text of a value is at least as long as the parser needs calls. *)
Lemma weight_le_length (v : value) :
  is_data v = true ->
  forall text, stringify_value v = Some text -> (weight v <= String.length text)%nat.
Proof.
  induction v as [p|items IH|fields IH] using value_ind'; intros Hdata text Htext.
  - destruct p as [| |[]|n|t|]; simpl in *; try discriminate; injection Htext as <-;
      simpl; try lia.
    destruct (string_of_Z_start n) as (c & s & -> & _). simpl. lia.
  - simpl in *. injection Htext as <-. rewrite append_cons, append_nil_l. simpl.
    rewrite length_append. simpl.
    pose proof (length_concat (map (fun x => default "null" (stringify_value x)) items)) as Hlen.
    assert (list_sum (map (fun x => S (weight x)) items)
            <= list_sum (map (fun t => S (String.length t))
                           (map (fun x => default "null" (stringify_value x)) items)))%nat.
    { clear Hlen. induction IH as [|x xs Hx _ IHxs]; simpl in *; [lia|].
      apply andb_true_iff in Hdata as [Hdx Hdxs].
      destruct (data_has_text x Hdx) as [tx Htx]. rewrite Htx. simpl.
      specialize (Hx Hdx tx Htx). specialize (IHxs Hdxs). lia. }
    lia.
  - simpl in *. injection Htext as <-.
    apply andb_true_iff in Hdata as [Hdata _].
    rewrite (member_texts fields Hdata).
    rewrite append_cons, append_nil_l. simpl. rewrite length_append. simpl.
    match goal with
    | |- context [String.concat "," ?ts] => pose proof (length_concat ts) as Hlen
    end.
    assert (list_sum (map (fun kv : string * value => S (weight (snd kv))) fields)
            <= list_sum (map (fun t => S (String.length t))
                 (map (fun kv : string * value =>
                         quote (fst kv) +:+ ":" +:+ default "null" (stringify_value (snd kv)))
                      fields)))%nat.
    { clear Hlen. induction IH as [|[k x] xs Hx _ IHxs]; simpl in *; [lia|].
      apply andb_true_iff in Hdata as [Hdx Hdxs].
      destruct (data_has_text x Hdx) as [tx Htx]. rewrite Htx. simpl.
      specialize (Hx Hdx tx Htx). specialize (IHxs Hdxs).
      rewrite !length_append. simpl. lia. }
    lia.
Qed.

(** [JSON.parse] on the text that [JSON.stringify] gives for a data value
    returns the value. *)
Lemma parse_stringify (v : value) (text : string) :
  is_data v = true ->
  stringify_value v = Some text ->
  parse_text text = Parsed v EmptyString.
Proof.
  intros Hdata Htext. unfold parse_text.
  pose proof (parse_value_back v Hdata text Htext (S (String.length text)) EmptyString) as H.
  rewrite append_nil_r in H. rewrite H; [done| |done].
  pose proof (weight_le_length v Hdata text Htext). lia.
Qed.

End JSONFacts.

(** ** Binding under ignore-state *)

(** C3, as the code has it.  While ignore-state is active, a bind of a key
    that the registry does not hold yet, with an object or an array, returns
    that very value, not wrapped, and leaves the disk, the heap and the
    pending writes as they were; it does record the key in the registry at
    its location.  An invalid key is refused all the same, and then nothing
    changes. *)
Theorem ignore_state_returns_initial_value (e : entry) (w : World) (key : string) (l : loc) :
  ignoreCashola (this w) = true ->
  key_in key (keyToFileMap (this w)) = false ->
  run e key (JRef l) w =
    (if ValidFilename.isValidFilename key
     then (Return (Plain (JRef l)), registered key w)
     else (Throw (InvalidKeyError key), w))
  /\ disk (registered key w) = disk w
  /\ heap (registered key w) = heap w
  /\ pending (registered key w) = pending w
  /\ keyToFileMap (this (registered key w)) !! key = Some (location w key).
Proof.
  intros Hi Hk. split; [|repeat split; simpl; by rewrite ?lookup_insert_eq].
  rewrite run_unfold. unfold mbind at 1, M_bind at 1.
  rewrite default_arg_object by reflexivity.
  unfold mbind at 1, M_bind at 1.
  destruct (ValidFilename.isValidFilename key) eqn:Hv.
  - rewrite checkInput_pass by done. by rewrite Hi.
  - by rewrite checkInput_invalid.
Qed.

Lemma ignore_state_returns_initial_value_witness :
  run RememberSync "notes" (JRef 0%nat) (process_with ignore_env empty_disk [plain []]) =
    (if ValidFilename.isValidFilename "notes"
     then (Return (Plain (JRef 0%nat)),
           registered "notes" (process_with ignore_env empty_disk [plain []]))
     else (Throw (InvalidKeyError "notes"), process_with ignore_env empty_disk [plain []])).
Proof.
  apply (ignore_state_returns_initial_value
           RememberSync (process_with ignore_env empty_disk [plain []]) "notes" 0%nat).
  - vm_compute. reflexivity.
  - vm_compute. reflexivity.
Defined.

(** C3 as it is written fails: the bind under ignore-state does create a
    registry entry. *)
Lemma ignore_state_registers_the_key :
  let w := process_with ignore_env empty_disk [plain []] in
  ignoreCashola (this w) = true
  /\ ValidFilename.isValidFilename "notes" = true
  /\ keyToFileMap (this w) !! "notes" = None
  /\ fst (rememberSync "notes" (JRef 0%nat) w) = Return (Plain (JRef 0%nat))
  /\ keyToFileMap (this (snd (rememberSync "notes" (JRef 0%nat) w))) !! "notes"
     = Some [".cashola"; "notes.json"]
  /\ ~ (keyToFileMap (this (snd (rememberSync "notes" (JRef 0%nat) w)))
        = keyToFileMap (this w)).
Proof.
  repeat split; try (vm_compute; reflexivity).
  intros H. apply (f_equal (fun m => m !! "notes")) in H. vm_compute in H. discriminate H.
Qed.

(** ** The input check *)

(** A value whose [typeof] is not [object] is refused before anything
    happens; [undefined] apart, which stands for a parameter left out. *)
Lemma non_object_is_refused (e : entry) (key : string) (p : prim) (w : World) :
  typeof (JPrim p) <> "object" ->
  p <> PUndefined ->
  run e key (JPrim p) w = (Throw (TypeKindError (JPrim p)), w).
Proof.
  intros Ht Hu. rewrite run_unfold. unfold mbind at 1, M_bind at 1.
  assert (default_arg (JPrim p) (default_body e) w = (Return (JPrim p), w)) as ->
    by (by destruct p).
  unfold mbind at 1, M_bind at 1. by rewrite checkInput_typekind.
Qed.

(** C8 at [null].  [typeof null] is [object], so the input check lets [null]
    through: the key is recorded, the text [null] is written to the key's
    file, and the call fails only when the proxy is built, with a
    [TypeError] that is not the error of the input check. *)
Theorem null_passes_the_type_check :
  let w := fresh_process no_env empty_disk in
  typeof (JPrim PNull) = "object"
  /\ fst (rememberSync "notes" (JPrim PNull) w)
     = Throw (TypeError "Cannot create proxy with a non-object as target or handler")
  /\ fst (rememberSync "notes" (JPrim PNull) w) <> Throw (TypeKindError (JPrim PNull))
  /\ keyToFileMap (this w) !! "notes" = None
  /\ keyToFileMap (this (snd (rememberSync "notes" (JPrim PNull) w))) !! "notes"
     = Some [".cashola"; "notes.json"]
  /\ Fs.files (disk w) !! [".cashola"; "notes.json"] = None
  /\ Fs.files (disk (snd (rememberSync "notes" (JPrim PNull) w))) !! [".cashola"; "notes.json"]
     = Some "null".
Proof. repeat split; try (vm_compute; reflexivity). vm_compute. discriminate. Qed.

(** ** Binding a key again *)

Lemma run_records_the_key (e : entry) (key : string) (obj : jsval) (w : World) r w1 :
  run e key obj w = (r, w1) ->
  r <> Throw (TypeKindError obj) ->
  r <> Throw (InvalidKeyError key) ->
  key_in key (keyToFileMap (this w1)) = true.
Proof.
  rewrite run_unfold. unfold mbind at 1, M_bind at 1.
  intros Hrun Ht Hv.
  assert (exists obj0 w0, default_arg obj (default_body e) w = (Return obj0, w0)
                          /\ this w0 = this w
                          /\ (typeof obj <> "object" -> obj <> JPrim PUndefined -> obj0 = obj)
                          /\ (obj = JPrim PUndefined -> typeof obj0 = "object")
                          /\ (typeof obj = "object" -> obj0 = obj))
    as (obj0 & w0 & Hd & Hthis & Hsame & Hundef & Hobj).
  { destruct obj as [[]|]; simpl; eexists _, _; (split; [reflexivity|]); repeat split; try done. }
  rewrite Hd in Hrun. unfold mbind at 1, M_bind at 1 in Hrun.
  destruct (decide (typeof obj0 = "object")) as [Ho|Ho].
  - destruct (key_in key (keyToFileMap (this w0))) eqn:Hk.
    + rewrite checkInput_duplicate in Hrun by done.
      injection Hrun as <- <-. done.
    + destruct (ValidFilename.isValidFilename key) eqn:Hvalid.
      * rewrite checkInput_pass in Hrun by done.
        destruct (negb (negb (ignoreCashola (this w0)))).
        -- injection Hrun as <- <-. apply key_in_registered.
        -- pose proof (same_this_resolve_and_wrap e key obj0 (registered key w0)) as Hk'.
           rewrite Hrun in Hk'. unfold same_this in Hk'. simpl in Hk'.
           rewrite Hk'. apply key_in_registered.
      * rewrite checkInput_invalid in Hrun by done.
        injection Hrun as <- <-. done.
  - rewrite checkInput_typekind in Hrun by done.
    injection Hrun as <- <-.
    destruct (decide (obj = JPrim PUndefined)) as [->|Hu]; [by destruct Ho; apply Hundef|].
    destruct (decide (typeof obj = "object")) as [Ho'|Ho'].
    + rewrite (Hobj Ho') in Ho. done.
    + rewrite (Hsame Ho' Hu) in Ht. done.
Qed.

(** C6, as the code has it.  Once a bind of a key has got past the checks of
    the value's type and of the key's validity, the key is in the registry,
    whatever became of that bind afterwards; from then on, in any world whose
    registry still holds what it held, whatever its disk holds, a bind of the
    key with an object (or with no value) fails with DuplicateKeyError and
    touches neither the registry nor the disk. *)
Theorem rebind_fails_once_recorded
  (e1 e2 : entry) (key : string) (obj1 obj2 : jsval) (w w1 w2 : World) (r : outcome live) :
  run e1 key obj1 w = (r, w1) ->
  r <> Throw (TypeKindError obj1) ->
  r <> Throw (InvalidKeyError key) ->
  keyToFileMap (this w1) ⊆ keyToFileMap (this w2) ->
  typeof obj2 = "object" \/ obj2 = JPrim PUndefined ->
  fst (run e2 key obj2 w2) = Throw (DuplicateKeyError key)
  /\ this (snd (run e2 key obj2 w2)) = this w2
  /\ disk (snd (run e2 key obj2 w2)) = disk w2.
Proof.
  intros Hrun Ht Hv Hsub Hobj2.
  pose proof (run_records_the_key _ _ _ _ _ _ Hrun Ht Hv) as Hin.
  apply (key_in_weaken _ _ _ Hsub) in Hin.
  assert (exists w2', run e2 key obj2 w2 = (Throw (DuplicateKeyError key), w2')
                      /\ this w2' = this w2 /\ disk w2' = disk w2)
    as (w2' & -> & Hthis & Hdisk); [|done].
  rewrite run_unfold. unfold mbind at 1, M_bind at 1.
  destruct Hobj2 as [Ho| ->].
  - rewrite default_arg_object by done. unfold mbind at 1, M_bind at 1.
    rewrite checkInput_duplicate by done. by eexists.
  - simpl. unfold mbind at 1, M_bind at 1.
    rewrite checkInput_duplicate by done. by eexists.
Qed.

Lemma rebind_fails_once_recorded_witness :
  let w := process_with no_env empty_disk [plain []] in
  let first := run RememberSync "notes" (JRef 0%nat) w in
  fst first = Return (Proxy 0%nat (HandlerSync "notes"))
  /\ fst (run Remember "notes" (JRef 0%nat) (with_disk empty_disk (snd first)))
     = Throw (DuplicateKeyError "notes").
Proof.
  intros w first. split; [vm_compute; reflexivity|].
  apply (rebind_fails_once_recorded RememberSync Remember "notes" (JRef 0%nat) (JRef 0%nat)
           w (snd first) (with_disk empty_disk (snd first)) (fst first)).
  - apply surjective_pairing.
  - vm_compute. discriminate.
  - vm_compute. discriminate.
  - reflexivity.
  - by left.
Defined.

(** C6 as it is written fails: a first bind that is refused for the type of
    its value records nothing, and the second bind of the key succeeds. *)
Lemma rebind_after_refused_bind_succeeds :
  let w := process_with no_env empty_disk [plain []] in
  let first := rememberSync "notes" (JPrim (PStr "draft")) w in
  let second := rememberSync "notes" (JRef 0%nat) (snd first) in
  fst first = Throw (TypeKindError (JPrim (PStr "draft")))
  /\ fst second = Return (Proxy 0%nat (HandlerSync "notes"))
  /\ fst second <> Throw (DuplicateKeyError "notes").
Proof. repeat split; try (vm_compute; reflexivity). vm_compute. discriminate. Qed.

(** ** Clearing one key *)

Lemma clearSync_unfold (key : string) (w : World) :
  clearSync key w = (d ← of_fs (Fs.rm (disk w) (location w key)); set_disk d) w.
Proof. reflexivity. Qed.




(** ** Saving *)

Lemma saveSync_is_save : saveSync = save.
Proof. reflexivity. Qed.

Lemma stringify_body (b : body) :
  JSON.stringify_value (value_of_body b) = Some (text_of b).
Proof. by destruct b. Qed.

Lemma JSON_stringify_ref (l : loc) (o : object) (w : World) :
  heap w !! l = Some o ->
  JSON_stringify (JRef l) w = (Return (Some (text_of (contents o))), w).
Proof.
  intros Hl. unfold JSON_stringify, mbind, M_bind, deref. rewrite Hl.
  by rewrite stringify_body.
Qed.

(** A [save] that is awaited is the [save] that is not, settled at once. *)
Lemma save_is_start_then_settle (key : string) (obj : jsval) (str : option string)
    (w : World) :
  JSON_stringify obj w = (Return str, w) ->
  save key obj w = save_settle (mkPending key (keyToFileMap (this w) !! key) str) w
  /\ save_start key obj w
     = (Return tt, with_pending (mkPending key (keyToFileMap (this w) !! key) str) w).
Proof.
  intros Hs. unfold save, save_start, mbind at 1, M_bind at 1. by rewrite Hs.
Qed.

(** The write succeeds at once. *)
Lemma save_direct (key : string) (obj : jsval) (text : string) (p : Path.path)
    (d' : Fs.disk) (w : World) :
  JSON_stringify obj w = (Return (Some text), w) ->
  keyToFileMap (this w) !! key = Some p ->
  Fs.writeFile (disk w) p text = inr d' ->
  save key obj w = (Return tt, with_disk d' w).
Proof.
  intros Hs Hp Hw. unfold save, mbind at 1, M_bind at 1. rewrite Hs.
  unfold try_catch, mbind, M_bind, get_this, writeFile, of_fs. by rewrite Hp, Hw.
Qed.

(** The storage directory is not there: it is made, and the write is tried
    once more. *)
Lemma save_after_mkdir (key : string) (obj : jsval) (text : string) (p : Path.path)
    (d1 d2 : Fs.disk) (w : World) :
  JSON_stringify obj w = (Return (Some text), w) ->
  keyToFileMap (this w) !! key = Some p ->
  Fs.writeFile (disk w) p text = inl Fs.ENOENT ->
  Fs.mkdir (disk w) (Path.resolve (storageDir (this w))) = inr d1 ->
  Fs.writeFile d1 p text = inr d2 ->
  save key obj w = (Return tt, with_disk d2 w).
Proof.
  intros Hs Hp Hw Hm Hw2. unfold save, mbind at 1, M_bind at 1. rewrite Hs.
  unfold try_catch, mbind at 1, M_bind at 1, get_this, writeFile at 1.
  rewrite Hp. unfold mbind at 1, M_bind at 1, of_fs at 1. rewrite Hw.
  unfold ENOENT_retry.
  change (has_code (SystemError Fs.ENOENT) Fs.ENOENT) with true. cbv iota.
  unfold mbind, M_bind, get_this, mkdir, of_fs, set_disk. rewrite Hm. simpl.
  unfold writeFile, mbind, M_bind, of_fs, set_disk. simpl. by rewrite Hp, Hw2.
Qed.

(** ** The [set] trap *)

Section TrapFacts.

Variable Reflect_set : object -> string -> value -> set_result.
Variable Reflect_get : object -> string -> value.

Lemma handler_set_accepted (h : handler) (target : loc) (prop : string) (v : value)
    (w : World) (o o' : object) :
  heap w !! target = Some o ->
  Reflect_set o prop v = SetOk o' ->
  handler_set Reflect_set h target prop v w =
    match h with
    | Handler key =>
        (save_start key (JRef target);; mret true)
          (with_heap (<[target := o']> (heap w)) w)
    | HandlerSync key =>
        (saveSync key (JRef target);; mret true)
          (with_heap (<[target := o']> (heap w)) w)
    end.
Proof.
  intros Hl Hs. unfold handler_set, mbind at 1, M_bind at 1, deref. rewrite Hl, Hs.
  by destruct h.
Qed.

Lemma handler_set_rejected (h : handler) (target : loc) (prop : string) (v : value)
    (w : World) (o : object) :
  heap w !! target = Some o ->
  Reflect_set o prop v = SetRejected ->
  handler_set Reflect_set h target prop v w = (Return false, w).
Proof.
  intros Hl Hs. unfold handler_set, mbind at 1, M_bind at 1, deref. by rewrite Hl, Hs.
Qed.

Lemma handler_set_throws (h : handler) (target : loc) (prop : string) (v : value)
    (w : World) (o : object) (err : error) :
  heap w !! target = Some o ->
  Reflect_set o prop v = SetThrows err ->
  handler_set Reflect_set h target prop v w = (Throw err, w).
Proof.
  intros Hl Hs. unfold handler_set, mbind at 1, M_bind at 1, deref. by rewrite Hl, Hs.
Qed.

End TrapFacts.

Lemma heap_after_insert (target : loc) (o o' : object) (w : World) :
  heap w !! target = Some o ->
  heap (with_heap (<[target := o']> (heap w)) w) !! target = Some o'.
Proof.
  intros Hl. simpl. apply list_lookup_insert_eq. by eapply lookup_lt_Some.
Qed.

(** C7.  A property write through a proxy whose target is [o].  When
    [Reflect.set] accepts the write and leaves the target as [o'], the target
    on the heap is [o'] when the trap returns, so that a read through the
    proxy is a read of [o']; after that the synchronous trap has run
    [saveSync] on the whole target, which puts the text of [o'] at the key's
    recorded location whenever the file can be written, and the asynchronous
    trap has asked for a write of that text to that location and returned
    true.  When [Reflect.set] refuses the write, or throws, the trap returns
    false, or throws the same, as the assignment to the target itself does,
    and the world is as it was: nothing is written. *)
Theorem set_trap_applies_then_persists
    (Reflect_set : object -> string -> value -> set_result)
    (Reflect_get : object -> string -> value)
    (h : handler) (target : loc) (prop : string) (v : value) (w : World) (o : object) :
  heap w !! target = Some o ->
  let after := handler_set Reflect_set h target prop v w in
  match Reflect_set o prop v with
  | SetOk o' =>
      let w1 := with_heap (<[target := o']> (heap w)) w in
      heap (snd after) !! target = Some o'
      /\ read Reflect_get (Proxy target h) prop (snd after)
         = (Return (Reflect_get o' prop), snd after)
      /\ match h with
         | HandlerSync key =>
             after = (saveSync key (JRef target);; mret true) w1
             /\ forall p d',
                 keyToFileMap (this w) !! key = Some p ->
                 Fs.writeFile (disk w) p (text_of (contents o')) = inr d' ->
                 after = (Return true, with_disk d' w1)
         | Handler key =>
             after =
               (Return true,
                with_pending (mkPending key (keyToFileMap (this w) !! key)
                                        (Some (text_of (contents o')))) w1)
         end
  | SetRejected =>
      after = (Return false, w)
      /\ assign Reflect_set (Proxy target h) prop v w
         = assign Reflect_set (Plain (JRef target)) prop v w
  | SetThrows err =>
      after = (Throw err, w)
      /\ assign Reflect_set (Proxy target h) prop v w
         = assign Reflect_set (Plain (JRef target)) prop v w
  end.
Proof.
  intros Hl after. subst after.
  destruct (Reflect_set o prop v) as [o'| |err] eqn:Hs.
  - rewrite (handler_set_accepted _ _ _ _ _ _ _ _ Hl Hs).
    pose proof (heap_after_insert target o o' w Hl) as Hl'.
    set (w1 := with_heap (<[target := o']> (heap w)) w) in *.
    assert (forall w2, heap w2 = heap w1 ->
              read Reflect_get (Proxy target h) prop w2
              = (Return (Reflect_get o' prop), w2)) as Hread.
    { intros w2 Hr. unfold read, mbind, M_bind, deref. by rewrite Hr, Hl'. }
    destruct h as [key|key].
    + unfold mbind, M_bind, save_start. rewrite (JSON_stringify_ref _ _ _ Hl').
      simpl. split; [exact Hl'|]. split; [|done].
      by apply Hread.
    + pose proof (disk_only_save key (JRef target) w1) as (_ & Hheap & _).
      rewrite saveSync_is_save.
      assert (heap (snd ((save key (JRef target);; mret true) w1)) = heap w1) as Hh.
      { unfold mbind, M_bind. by destruct (save key (JRef target) w1) as [[[]| |] w2]. }
      split; [by rewrite Hh|]. split; [by apply Hread|]. split; [done|].
      intros p d' Hp Hw. unfold mbind, M_bind.
      by rewrite (save_direct key (JRef target) _ p d' w1 (JSON_stringify_ref _ _ _ Hl') Hp Hw).
  - rewrite (handler_set_rejected _ _ _ _ _ _ _ Hl Hs). split; [done|].
    simpl. rewrite (handler_set_rejected _ _ _ _ _ _ _ Hl Hs).
    unfold mbind, M_bind, deref. by rewrite Hl, Hs.
  - rewrite (handler_set_throws _ _ _ _ _ _ _ _ Hl Hs). split; [done|].
    simpl. rewrite (handler_set_throws _ _ _ _ _ _ _ _ Hl Hs).
    unfold mbind, M_bind, deref. by rewrite Hl, Hs.
Qed.

Lemma set_trap_applies_then_persists_witness :
  let w := snd (rememberSync "counter" (JRef 0%nat)
                  (process_with no_env empty_disk [plain [("count", VNum 0)]])) in
  let after := handler_set set_own_field (HandlerSync "counter") 0%nat "count" (VNum 1) w in
  heap (snd after) !! 0%nat = Some (plain [("count", VNum 1)])
  /\ read get_own_field (Proxy 0%nat (HandlerSync "counter")) "count" (snd after)
     = (Return (get_own_field (plain [("count", VNum 1)]) "count"), snd after).
Proof.
  intros w after.
  pose proof (set_trap_applies_then_persists set_own_field get_own_field
                (HandlerSync "counter") 0%nat "count" (VNum 1) w
                (plain [("count", VNum 0)]) eq_refl) as H.
  change (set_own_field (plain [("count", VNum 0)]) "count" (VNum 1))
    with (SetOk (plain [("count", VNum 1)])) in H.
  destruct H as (Hheap & Hread & _). split; [exact Hheap|exact Hread].
Defined.

Lemma handler_set_writes_only_the_recorded_file
    (Reflect_set : object -> string -> value -> set_result)
    (h : handler) (key : string) (target : loc) (prop : string) (v : value)
    (p : Path.path) (w : World) :
  h = Handler key \/ h = HandlerSync key ->
  keyToFileMap (this w) !! key = Some p ->
  files_except p w (snd (handler_set Reflect_set h target prop v w)).
Proof.
  intros Hh Hp. unfold handler_set, mbind at 1, M_bind at 1, deref.
  destruct (heap w !! target) as [o|]; [|done].
  destruct (Reflect_set o prop v) as [o'| |err]; [|done..].
  set (w1 := with_heap (<[target := o']> (heap w)) w).
  change (files_except p w1
            (snd (match h with
                  | Handler key => save_start key (JRef target);; mret true
                  | HandlerSync key => saveSync key (JRef target);; mret true
                  end w1))).
  destruct Hh as [-> | ->].
  - unfold mbind, M_bind, save_start.
    pose proof (preserves_stringify disk_only disk_only_refl disk_only_trans
                  (JRef target) w1) as Hd.
    pose proof (preserves_stringify (files_except p) (files_except_refl p)
                  (files_except_trans p) (JRef target) w1) as Hf.
    by destruct (JSON_stringify (JRef target) w1) as [[str| |] w2].
  - pose proof (save_writes_only_the_recorded_file key (JRef target) p w1 Hp) as Hsave.
    rewrite saveSync_is_save. unfold mbind, M_bind.
    by destruct (save key (JRef target) w1) as [[[]| |] w2].
Qed.

(** ** Reconfiguring the storage directory *)

Lemma configure_storageDir (cfg : Config) (newDir : string) (w : World) :
  cfg_storageDir cfg = Some newDir ->
  newDir <> EmptyString ->
  storageDir (this (snd (configure cfg w))) = newDir
  /\ keyToFileMap (this (snd (configure cfg w))) = keyToFileMap (this w)
  /\ disk (snd (configure cfg w)) = disk w
  /\ heap (snd (configure cfg w)) = heap w.
Proof.
  intros Hc Hne. unfold configure. rewrite Hc. simpl.
  destruct (String.eqb_spec newDir "") as [->|_]; [done|]. simpl.
  destruct (truthy (cfg_ignoreCasholaEnvVar cfg)), (cfg_ignoreCashola cfg) as [[]|]; done.
Qed.

Lemma files_except_rm (p : Path.path) : preserves (files_except p) (rm p).
Proof.
  intros w q Hq. unfold rm, mbind, M_bind, of_fs, Fs.rm.
  destruct (Fs.blocked (disk w) p); [done|].
  destruct (Fs.is_file (disk w) p); simpl; [by rewrite lookup_delete_ne|].
  by destruct (Fs.is_dir (disk w) p).
Qed.

Lemma disk_only_rm (p : Path.path) : preserves disk_only (rm p).
Proof.
  intros w. unfold rm, mbind, M_bind, of_fs. by destruct (Fs.rm (disk w) p).
Qed.

(** C10.  A key is recorded at its location under [oldDir]; the storage
    directory is then configured to [newDir], a different directory.  A
    clear of the key now goes to the key's file under [newDir]; the recorded
    file under [oldDir] is as it was and the registry still records it, so
    that a property write through a proxy of the key changes no file but the
    recorded one, where [saveSync] puts the text of the target and where
    the write that [save] asks for is addressed. *)
Theorem clear_follows_the_configured_storageDir
    (Reflect_set : object -> string -> value -> set_result)
    (w : World) (key oldDir newDir : string) (cfg : Config) :
  ValidFilename.isValidFilename key = true ->
  keyToFileMap (this w) !! key = Some (Path.join oldDir (key +:+ ".json")) ->
  cfg_storageDir cfg = Some newDir ->
  newDir <> EmptyString ->
  Path.resolve newDir <> Path.resolve oldDir ->
  let old := Path.join oldDir (key +:+ ".json") in
  let new := Path.join newDir (key +:+ ".json") in
  let w1 := snd (configure cfg w) in
  let w2 := snd (clearSync key w1) in
  clearSync key w1 = (d ← of_fs (Fs.rm (disk w) new); set_disk d) w1
  /\ clear key w1 = clearSync key w1
  /\ new <> old
  /\ Fs.files (disk w2) !! old = Fs.files (disk w) !! old
  /\ keyToFileMap (this w2) !! key = Some old
  /\ (forall h target prop v,
        h = Handler key \/ h = HandlerSync key ->
        files_except old w2 (snd (handler_set Reflect_set h target prop v w2)))
  /\ (forall target o d',
        heap w2 !! target = Some o ->
        Fs.writeFile (disk w2) old (text_of (contents o)) = inr d' ->
        saveSync key (JRef target) w2 = (Return tt, with_disk d' w2))
  /\ (forall target o,
        heap w2 !! target = Some o ->
        save_start key (JRef target) w2 =
          (Return tt,
           with_pending (mkPending key (Some old) (Some (text_of (contents o)))) w2)).
Proof.
  intros Hv Hold Hc Hne Hdir old new w1 w2.
  destruct (configure_storageDir cfg newDir w Hc Hne) as (Hsd & Hmap & Hdisk & Hheap).
  fold w1 in Hsd, Hmap, Hdisk, Hheap.
  assert (location w1 key = new) as Hloc by (unfold location; by rewrite Hsd).
  assert (new <> old) as Hneq.
  { unfold new, old. rewrite !join_plain by by apply valid_key_file_is_plain.
    intros Heq. by apply app_inv_tail in Heq. }
  assert (clearSync key w1 = (d ← of_fs (Fs.rm (disk w) new); set_disk d) w1) as Hclear.
  { by rewrite clearSync_unfold, Hloc, Hdisk. }
  pose proof (disk_only_rm new w1) as (Hthis2 & Hheap2 & _).
  pose proof (files_except_rm new w1 old (not_eq_sym Hneq)) as Hfiles.
  assert (rm new w1 = clearSync key w1) as Hrm.
  { rewrite clearSync_unfold, Hloc. reflexivity. }
  rewrite Hrm in Hthis2, Hheap2, Hfiles. fold w2 in Hthis2, Hheap2, Hfiles.
  assert (keyToFileMap (this w2) !! key = Some old) as Hrec.
  { by rewrite Hthis2, Hmap. }
  split; [exact Hclear|]. split; [reflexivity|]. split; [exact Hneq|].
  split; [by rewrite Hfiles, Hdisk|]. split; [exact Hrec|]. split; [|split].
  - intros h target prop v Hh.
    by apply (handler_set_writes_only_the_recorded_file Reflect_set h key).
  - intros target o d' Hl Hw. rewrite saveSync_is_save.
    by apply (save_direct key (JRef target) _ old d' w2 (JSON_stringify_ref _ _ _ Hl)).
  - intros target o Hl. unfold save_start.
    by rewrite (JSON_stringify_ref _ _ _ Hl), Hrec.
Qed.

Lemma clear_follows_the_configured_storageDir_witness :
  let w := snd (rememberSync "notes" (JRef 0%nat)
                  (process_with no_env empty_disk [plain []])) in
  let w1 := snd (configure (mkConfig (Some "elsewhere") None None) w) in
  Path.join "elsewhere" "notes.json" <> Path.join ".cashola" "notes.json"
  /\ Fs.files (disk (snd (clearSync "notes" w1))) !! Path.join ".cashola" "notes.json"
     = Fs.files (disk w) !! Path.join ".cashola" "notes.json".
Proof.
  intros w w1.
  destruct (clear_follows_the_configured_storageDir set_own_field w "notes" ".cashola"
              "elsewhere" (mkConfig (Some "elsewhere") None None))
    as (_ & _ & Hneq & Hfiles & _).
  - vm_compute. reflexivity.
  - vm_compute. reflexivity.
  - reflexivity.
  - discriminate.
  - vm_compute. discriminate.
  - split; [exact Hneq|exact Hfiles].
Defined.

(** ** Loading what is stored *)

Lemma load_stored (key : string) (p : Path.path) (text rest : string) (stored : value)
    (b : body) (w : World) :
  keyToFileMap (this w) !! key = Some p ->
  Fs.readFile (disk w) p = inr text ->
  JSON.parse_text text = JSON.Parsed stored rest ->
  body_of_value stored = Some b ->
  load key w =
    (Return (JRef (length (heap w))), with_heap (heap w ++ [Object b Extensible]) w).
Proof.
  intros Hp Hr Hparse Hb. unfold load, mbind, M_bind, get_this, readFile, of_fs.
  rewrite Hp, Hr. unfold JSON_parse. rewrite Hparse.
  destruct stored; simpl in Hb; [done|..]; by injection Hb as <-.
Qed.

Lemma load_malformed (key : string) (p : Path.path) (text : string) (w : World) :
  keyToFileMap (this w) !! key = Some p ->
  Fs.readFile (disk w) p = inr text ->
  JSON.parse_text text = JSON.Malformed ->
  load key w = (Throw SyntaxError, w).
Proof.
  intros Hp Hr Hparse. unfold load, mbind, M_bind, get_this, readFile, of_fs.
  rewrite Hp, Hr. unfold JSON_parse. by rewrite Hparse.
Qed.

Lemma load_fails (key : string) (p : Path.path) (c : Fs.errcode) (w : World) :
  keyToFileMap (this w) !! key = Some p ->
  Fs.readFile (disk w) p = inl c ->
  load key w = (Throw (SystemError c), w).
Proof.
  intros Hp Hr. unfold load, mbind, M_bind, get_this, readFile, of_fs.
  by rewrite Hp, Hr.
Qed.

Lemma isArray_ref (l : loc) (o : object) (w : World) :
  heap w !! l = Some o ->
  Array_isArray (JRef l) w = (Return (is_array (contents o)), w).
Proof.
  intros Hl. unfold Array_isArray, mbind, M_bind, deref. rewrite Hl.
  by destruct (contents o).
Qed.

Lemma checkSameType_refs (l1 l2 : loc) (o1 o2 : object) (key : string) (w : World) :
  heap w !! l1 = Some o1 ->
  heap w !! l2 = Some o2 ->
  checkSameType (JRef l1) (JRef l2) key w =
    if bool_decide (is_array (contents o1) = is_array (contents o2))
    then (Return tt, w)
    else (Throw (ShapeMismatchError key
                   (if is_array (contents o2) then "array" else "object")), w).
Proof.
  intros H1 H2. unfold checkSameType, mbind, M_bind.
  rewrite (isArray_ref _ _ _ H1), (isArray_ref _ _ _ H2).
  by destruct (is_array (contents o1)), (is_array (contents o2)).
Qed.

Lemma registered_lookup (key : string) (w : World) :
  keyToFileMap (this (registered key w)) !! key = Some (location w key).
Proof. simpl. apply lookup_insert_eq. Qed.

(** A bind that reaches the load, for an object on the heap. *)
Lemma run_to_load (e : entry) (key : string) (l : loc) (w : World) :
  ignoreCashola (this w) = false ->
  key_in key (keyToFileMap (this w)) = false ->
  ValidFilename.isValidFilename key = true ->
  run e key (JRef l) w = resolve_and_wrap e key (JRef l) (registered key w).
Proof.
  intros Hi Hk Hv. rewrite run_unfold. unfold mbind at 1, M_bind at 1.
  rewrite default_arg_object by reflexivity.
  unfold mbind at 1, M_bind at 1.
  rewrite checkInput_pass by done. by rewrite Hi.
Qed.

(** A bind that finds a stored array or object of the shape of the initial
    value: the proxy is over a new object with the stored contents. *)
Lemma bind_loads_stored
    (e : entry) (w : World) (key : string) (l : loc) (o : object)
    (text rest : string) (stored : value) (b : body) :
  ignoreCashola (this w) = false ->
  key_in key (keyToFileMap (this w)) = false ->
  ValidFilename.isValidFilename key = true ->
  heap w !! l = Some o ->
  Fs.readFile (disk w) (location w key) = inr text ->
  JSON.parse_text text = JSON.Parsed stored rest ->
  body_of_value stored = Some b ->
  is_array b = is_array (contents o) ->
  run e key (JRef l) w =
    (Return (Proxy (length (heap w)) (handler_of e key)),
     with_heap (heap w ++ [Object b Extensible]) (registered key w)).
Proof.
  intros Hi Hk Hv Hl Hr Hparse Hb Hshape.
  set (w' := with_heap (heap w ++ [Object b Extensible]) (registered key w)).
  assert (heap w' !! length (heap w) = Some (Object b Extensible)) as Hnew.
  { simpl. by rewrite lookup_app_r, Nat.sub_diag. }
  assert (heap w' !! l = Some o) as Hold.
  { simpl. by rewrite lookup_app_l by by eapply lookup_lt_Some. }
  rewrite run_to_load by done.
  unfold resolve_and_wrap, mbind at 1, M_bind at 1, try_catch, safeLoad.
  unfold mbind at 1, M_bind at 1.
  rewrite (load_stored key (location w key) text rest stored b (registered key w))
    by (done || apply registered_lookup).
  fold w'. unfold mbind at 1, M_bind at 1.
  rewrite (checkSameType_refs _ _ _ _ _ _ Hold Hnew). simpl.
  by rewrite bool_decide_eq_true_2.
Qed.

(** ** The disk under a first save *)

Lemma proper_prefixes_snoc (dir : Path.path) (f : string) :
  Fs.proper_prefixes (dir ++ [f]) = Fs.proper_prefixes dir ++ [dir].
Proof.
  unfold Fs.proper_prefixes. rewrite length_app. simpl.
  rewrite Nat.add_1_r, seq_S, map_app. simpl. f_equal.
  - apply map_ext_in. intros n Hn. apply in_seq in Hn.
    by rewrite take_app_le by lia.
  - by rewrite take_app_length.
Qed.

Lemma readFile_ENOENT (d : Fs.disk) (p : Path.path) :
  Fs.readFile d p = inl Fs.ENOENT ->
  Fs.blocked d p = false /\ Fs.files d !! p = None /\ Fs.is_dir d p = false.
Proof.
  unfold Fs.readFile. destruct (Fs.blocked d p); [done|].
  destruct (Fs.files d !! p); [done|]. by destruct (Fs.is_dir d p).
Qed.

Lemma blocked_snoc (d : Fs.disk) (dir : Path.path) (f : string) :
  Fs.blocked d (dir ++ [f]) = false ->
  Fs.blocked d dir = false /\ Fs.is_file d dir = false.
Proof.
  unfold Fs.blocked. rewrite proper_prefixes_snoc, existsb_app. simpl.
  rewrite orb_false_r. apply orb_false_iff.
Qed.

Lemma existsb_map_ext {A B : Type} (f g : B -> bool) (h : A -> B) (l : list A) :
  (forall a, In a l -> f (h a) = g (h a)) ->
  existsb f (map h l) = existsb g (map h l).
Proof.
  induction l as [|a l IH]; intros Hfg; simpl; [done|].
  rewrite Hfg by by left. rewrite IH; [done|]. intros b Hb. apply Hfg. by right.
Qed.

Lemma blocked_files (d d' : Fs.disk) (p : Path.path) :
  (forall q, q <> p -> Fs.files d' !! q = Fs.files d !! q) ->
  Fs.blocked d' p = Fs.blocked d p.
Proof.
  intros Hsame. unfold Fs.blocked, Fs.proper_prefixes.
  apply existsb_map_ext. intros n Hn. apply in_seq in Hn.
  unfold Fs.is_file. rewrite Hsame; [done|].
  intros Heq. apply (f_equal length) in Heq. rewrite length_take in Heq. lia.
Qed.

Lemma read_after_write (d d' : Fs.disk) (p : Path.path) (text : string) :
  Fs.writeFile d p text = inr d' -> Fs.readFile d' p = inr text.
Proof.
  unfold Fs.writeFile. destruct (Fs.blocked d p) eqn:Hb; [done|].
  assert (forall ds, Fs.readFile (Fs.Disk (<[p := text]> (Fs.files d)) ds) p = inr text)
    as Hread.
  { intros ds. unfold Fs.readFile.
    rewrite (blocked_files d) by (intros q Hq; simpl; by rewrite lookup_insert_ne).
    rewrite Hb. simpl. by rewrite lookup_insert_eq. }
  destruct (Fs.is_file d p); [by intros [= <-]|].
  destruct (Fs.is_dir d p); [done|].
  destruct (Fs.is_dir d (Path.dirname p)); [by intros [= <-]|done].
Qed.

Lemma ancestors_self (dir : Path.path) : dir <> [] -> dir ∈ Fs.ancestors dir.
Proof.
  intros Hne. unfold Fs.ancestors. apply list_elem_of_In, in_map_iff.
  exists (length dir). split; [apply firstn_all|]. apply in_seq.
  destruct dir; [done|]. simpl. lia.
Qed.

Lemma ancestors_shorter (dir q : Path.path) :
  q ∈ Fs.ancestors dir -> (length q <= length dir)%nat.
Proof.
  unfold Fs.ancestors. intros Hq. apply list_elem_of_In, in_map_iff in Hq as (n & <- & Hn).
  rewrite length_take. lia.
Qed.

(** A file that is not there can be written after [mkdir] of its directory,
    when it cannot be written at once. *)
Lemma write_into_storageDir (d : Fs.disk) (dir : Path.path) (f text : string) :
  f <> EmptyString ->
  Fs.readFile d (dir ++ [f]) = inl Fs.ENOENT ->
  (exists d', Fs.writeFile d (dir ++ [f]) text = inr d')
  \/ (Fs.writeFile d (dir ++ [f]) text = inl Fs.ENOENT
      /\ exists d1 d2, Fs.mkdir d dir = inr d1 /\ Fs.writeFile d1 (dir ++ [f]) text = inr d2).
Proof.
  intros Hf Hr. destruct (readFile_ENOENT d _ Hr) as (Hb & Hnone & Hnd).
  destruct (blocked_snoc d dir f Hb) as (Hbd & Hfd).
  assert (Fs.is_file d (dir ++ [f]) = false) as Hnf.
  { unfold Fs.is_file. rewrite Hnone. by apply bool_decide_eq_false_2, is_Some_None. }
  unfold Fs.writeFile. rewrite Hb, Hnf, Hnd.
  unfold Path.dirname. rewrite removelast_last.
  destruct (Fs.is_dir d dir) eqn:Hdir; [left; by eexists|right]. split; [done|].
  unfold Fs.mkdir. rewrite Hbd, Hfd. eexists _, _. split; [done|].
  set (d1 := Fs.Disk _ _).
  rewrite (blocked_files d d1) by done. rewrite Hb.
  assert (Fs.is_file d1 (dir ++ [f]) = false) as -> by done.
  assert (Fs.is_dir d1 (dir ++ [f]) = false) as ->.
  { apply bool_decide_eq_false_2. apply bool_decide_eq_false_1 in Hnd.
    intros [Heq|[Heq|Hin]].
    - by destruct dir.
    - destruct dir as [|? [|? ?]]; simplify_eq.
    - unfold d1 in Hin. cbn [Fs.dirs] in Hin. apply elem_of_union in Hin as [Hin|Hin].
      + apply Hnd. by right; right.
      + apply elem_of_list_to_set, ancestors_shorter in Hin.
        rewrite length_app in Hin. simpl in Hin. lia. }
  assert (Fs.is_dir d1 dir = true) as ->; [|done].
  apply bool_decide_eq_true_2. destruct dir as [|s dir']; [by left|].
  right; right. unfold d1. cbn [Fs.dirs].
  apply elem_of_union_r, elem_of_list_to_set.
  by apply ancestors_self.
Qed.

(** ** The first bind of a key, and the next process *)

Lemma save_creates (key : string) (l : loc) (o : object) (w : World) :
  ValidFilename.isValidFilename key = true ->
  keyToFileMap (this w) !! key = Some (location w key) ->
  heap w !! l = Some o ->
  Fs.readFile (disk w) (location w key) = inl Fs.ENOENT ->
  exists d', save key (JRef l) w = (Return tt, with_disk d' w)
             /\ Fs.readFile d' (location w key) = inr (text_of (contents o)).
Proof.
  intros Hv Hp Hl Hr.
  pose proof (JSON_stringify_ref l o w Hl) as Hs.
  rewrite location_in_storageDir in * by done.
  destruct (plain_segment_spec _ (valid_key_file_is_plain key Hv)) as (_ & Hne & _).
  apply String.eqb_neq in Hne.
  destruct (write_into_storageDir (disk w) _ _ (text_of (contents o)) Hne Hr)
    as [[d' Hw]|(Hw & d1 & d2 & Hm & Hw2)].
  - exists d'. split; [by eapply save_direct|by eapply read_after_write].
  - exists d2. split; [by eapply save_after_mkdir|by eapply read_after_write].
Qed.

(** Nothing is stored for the key: the initial object becomes the target,
    and its text is at the key's location afterwards. *)
Lemma bind_creates (e : entry) (w : World) (key : string) (l : loc) (o : object) :
  ignoreCashola (this w) = false ->
  key_in key (keyToFileMap (this w)) = false ->
  ValidFilename.isValidFilename key = true ->
  heap w !! l = Some o ->
  Fs.readFile (disk w) (location w key) = inl Fs.ENOENT ->
  exists d',
    run e key (JRef l) w
    = (Return (Proxy l (handler_of e key)), with_disk d' (registered key w))
    /\ Fs.readFile d' (location w key) = inr (text_of (contents o)).
Proof.
  intros Hi Hk Hv Hl Hr. rewrite run_to_load by done.
  destruct (save_creates key l o (registered key w) Hv (registered_lookup key w) Hl Hr)
    as (d' & Hsave & Hread).
  exists d'. split; [|exact Hread].
  unfold resolve_and_wrap, mbind at 1, M_bind at 1, try_catch, safeLoad.
  unfold mbind at 1, M_bind at 1.
  rewrite (load_fails key (location w key) Fs.ENOENT (registered key w))
    by (done || apply registered_lookup).
  change (has_code (SystemError Fs.ENOENT) Fs.ENOENT) with true. cbv iota.
  unfold mbind at 1, M_bind at 1. by rewrite Hsave.
Qed.

(** The round trip of C5, for the keys the registry does not report as
    present.  A first bind of a data value with nothing stored puts its text
    at the key's location; a later bind of the key in a process with a
    registry of its own, over that disk and with an initial value of the
    same shape, returns a proxy over a new object with the very contents. *)
Lemma bind_round_trip (e1 e2 : entry) (w : World) (key : string) (l : loc) (o : object) :
  ignoreCashola (this w) = false ->
  key_in key (keyToFileMap (this w)) = false ->
  ValidFilename.isValidFilename key = true ->
  heap w !! l = Some o ->
  JSON.is_data (value_of_body (contents o)) = true ->
  Fs.readFile (disk w) (location w key) = inl Fs.ENOENT ->
  exists d',
    run e1 key (JRef l) w
    = (Return (Proxy l (handler_of e1 key)), with_disk d' (registered key w))
    /\ Fs.readFile d' (location w key) = inr (text_of (contents o))
    /\ forall w2 l2 o2,
         disk w2 = d' ->
         storageDir (this w2) = storageDir (this w) ->
         ignoreCashola (this w2) = false ->
         key_in key (keyToFileMap (this w2)) = false ->
         heap w2 !! l2 = Some o2 ->
         is_array (contents o2) = is_array (contents o) ->
         run e2 key (JRef l2) w2
         = (Return (Proxy (length (heap w2)) (handler_of e2 key)),
            with_heap (heap w2 ++ [Object (contents o) Extensible]) (registered key w2)).
Proof.
  intros Hi Hk Hv Hl Hdata Hr.
  destruct (bind_creates e1 w key l o Hi Hk Hv Hl Hr) as (d' & Hrun & Hread).
  exists d'. split; [exact Hrun|]. split; [exact Hread|].
  intros w2 l2 o2 Hd Hsd Hi2 Hk2 Hl2 Hshape.
  apply (bind_loads_stored e2 w2 key l2 o2 (text_of (contents o)) EmptyString
           (value_of_body (contents o)) (contents o)); [done..| | | |].
  - unfold location. by rewrite Hd, Hsd.
  - apply JSONFacts.parse_stringify; [done|apply stringify_body].
  - by destruct (contents o).
  - by rewrite Hshape.
Qed.

(** ** A stored value and the initial value *)



(** ** The errors of the load that a bind drops *)

(** The [catch] of the remember functions acts on [ENOENT] and on nothing
    else, and throws nothing again: whatever other error the load raises,
    the bind returns a proxy over the initial value. *)
Lemma load_error_is_dropped (e : entry) (w w1 : World) (key : string) (l : loc) (err : error) :
  ignoreCashola (this w) = false ->
  key_in key (keyToFileMap (this w)) = false ->
  ValidFilename.isValidFilename key = true ->
  safeLoad key (JRef l) (registered key w) = (Throw err, w1) ->
  has_code err Fs.ENOENT = false ->
  run e key (JRef l) w = (Return (Proxy l (handler_of e key)), w1).
Proof.
  intros Hi Hk Hv Hload Hcode. rewrite run_to_load by done.
  unfold resolve_and_wrap, mbind at 1, M_bind at 1, try_catch.
  by rewrite Hload, Hcode.
Qed.

(** In general: whatever array or object of the other shape is stored, the
    shape check raises its error and the bind returns a proxy over the
    initial object; the disk is not touched by the bind. *)
Lemma bind_with_other_shape
    (e : entry) (w : World) (key : string) (l : loc) (o : object)
    (text rest : string) (stored : value) (b : body) :
  ignoreCashola (this w) = false ->
  key_in key (keyToFileMap (this w)) = false ->
  ValidFilename.isValidFilename key = true ->
  heap w !! l = Some o ->
  Fs.readFile (disk w) (location w key) = inr text ->
  JSON.parse_text text = JSON.Parsed stored rest ->
  body_of_value stored = Some b ->
  is_array b <> is_array (contents o) ->
  let w' := with_heap (heap w ++ [Object b Extensible]) (registered key w) in
  safeLoad key (JRef l) (registered key w)
  = (Throw (ShapeMismatchError key (if is_array b then "array" else "object")), w')
  /\ run e key (JRef l) w = (Return (Proxy l (handler_of e key)), w')
  /\ disk w' = disk w.
Proof.
  intros Hi Hk Hv Hl Hr Hparse Hb Hshape w'.
  assert (heap w' !! length (heap w) = Some (Object b Extensible)) as Hnew.
  { simpl. by rewrite lookup_app_r, Nat.sub_diag. }
  assert (heap w' !! l = Some o) as Hold.
  { simpl. by rewrite lookup_app_l by by eapply lookup_lt_Some. }
  assert (safeLoad key (JRef l) (registered key w)
          = (Throw (ShapeMismatchError key (if is_array b then "array" else "object")), w'))
    as Hload.
  { unfold safeLoad, mbind at 1, M_bind at 1.
    rewrite (load_stored key (location w key) text rest stored b (registered key w))
      by (done || apply registered_lookup).
    fold w'. unfold mbind at 1, M_bind at 1.
    rewrite (checkSameType_refs _ _ _ _ _ _ Hold Hnew). simpl.
    rewrite bool_decide_eq_false_2; [done|]. by intros Heq. }
  split; [exact Hload|]. split; [|done].
  by apply (load_error_is_dropped e w w' key l _ Hi Hk Hv Hload).
Qed.

(** And whatever text is stored that does not decode, the bind returns a
    proxy over the initial object and changes nothing but the registry. *)
Lemma bind_with_malformed_text
    (e : entry) (w : World) (key : string) (l : loc) (text : string) :
  ignoreCashola (this w) = false ->
  key_in key (keyToFileMap (this w)) = false ->
  ValidFilename.isValidFilename key = true ->
  Fs.readFile (disk w) (location w key) = inr text ->
  JSON.parse_text text = JSON.Malformed ->
  load key (registered key w) = (Throw SyntaxError, registered key w)
  /\ run e key (JRef l) w = (Return (Proxy l (handler_of e key)), registered key w).
Proof.
  intros Hi Hk Hv Hr Hparse.
  assert (load key (registered key w) = (Throw SyntaxError, registered key w)) as Hload.
  { by apply (load_malformed key (location w key) text);
      [apply registered_lookup|..]. }
  split; [exact Hload|].
  apply (load_error_is_dropped e w (registered key w) key l SyntaxError Hi Hk Hv); [|done].
  unfold safeLoad, mbind at 1, M_bind at 1. by rewrite Hload.
Qed.

(** C1 at scenario D.  A first process binds [list1] as an array, which
    writes the text of the empty array.  A second process, with a registry
    of its own over that disk, binds [list1] with a mapping: the shape check
    raises ShapeMismatchError, yet the bind returns a proxy over the mapping.
    The file is as it was at that point; the first property write through
    the proxy replaces the stored array by the mapping. *)
Theorem shape_mismatch_is_dropped :
  let first := rememberArraySync "list1" (JPrim PUndefined)
                 (fresh_process no_env empty_disk) in
  let d := disk (snd first) in
  let w := process_with no_env d [plain []] in
  let second := rememberSync "list1" (JRef 0%nat) w in
  let written := assign set_own_field (Proxy 0%nat (HandlerSync "list1"))
                   "a" (VNum 1) (snd second) in
  fst first = Return (Proxy 0%nat (HandlerSync "list1"))
  /\ Fs.readFile d [".cashola"; "list1.json"] = inr (text_of (BArr []))
  /\ fst (safeLoadSync "list1" (JRef 0%nat) (registered "list1" w))
     = Throw (ShapeMismatchError "list1" "array")
  /\ fst second = Return (Proxy 0%nat (HandlerSync "list1"))
  /\ fst second <> Throw (ShapeMismatchError "list1" "array")
  /\ heap (snd second) !! 0%nat = Some (plain [])
  /\ Fs.readFile (disk (snd second)) [".cashola"; "list1.json"] = inr (text_of (BArr []))
  /\ fst written = Return true
  /\ Fs.readFile (disk (snd written)) [".cashola"; "list1.json"]
     = inr (text_of (BObj [("a", VNum 1)])).
Proof. repeat split; try (vm_compute; reflexivity). vm_compute. discriminate. Qed.

(** C4 at a file that does not decode, and at a directory in the file's
    place.  The load raises SyntaxError, or the file system's EISDIR; the
    bind raises nothing and returns a proxy over the initial value, and
    nothing is written. *)
Theorem decode_failure_is_dropped :
  let p : Path.path := [".cashola"; "notes.json"] in
  let d := Fs.Disk {[ p := "{" ]} {[ [".cashola"] ]} in
  let w := process_with no_env d [plain [("a", VNum 1)]] in
  let d2 := Fs.Disk ∅ (list_to_set [[".cashola"]; p]) in
  let w2 := process_with no_env d2 [plain [("a", VNum 1)]] in
  fst (load "notes" (registered "notes" w)) = Throw SyntaxError
  /\ fst (remember "notes" (JRef 0%nat) w) = Return (Proxy 0%nat (Handler "notes"))
  /\ fst (rememberSync "notes" (JRef 0%nat) w) = Return (Proxy 0%nat (HandlerSync "notes"))
  /\ Fs.readFile (disk (snd (rememberSync "notes" (JRef 0%nat) w))) p = inr "{"
  /\ fst (load "notes" (registered "notes" w2)) = Throw (SystemError Fs.EISDIR)
  /\ fst (rememberSync "notes" (JRef 0%nat) w2) = Return (Proxy 0%nat (HandlerSync "notes"))
  /\ Fs.readFile (disk (snd (rememberSync "notes" (JRef 0%nat) w2))) p = inl Fs.EISDIR.
Proof. repeat split; vm_compute; reflexivity. Qed.

(** C5 at the key [toString].  The key is a valid file name, nothing is
    stored for it and the registry has no entry at all; the bind fails with
    DuplicateKeyError, because [in] finds the name in [Object.prototype], and
    nothing is stored. *)
Theorem inherited_name_is_refused_as_duplicate :
  let w := process_with no_env empty_disk [plain [("count", VNum 0)]] in
  ValidFilename.isValidFilename "toString" = true
  /\ keyToFileMap (this w) !! "toString" = None
  /\ Fs.readFile (disk w) (location w "toString") = inl Fs.ENOENT
  /\ key_in "toString" (keyToFileMap (this w)) = true
  /\ fst (rememberSync "toString" (JRef 0%nat) w) = Throw (DuplicateKeyError "toString")
  /\ fst (remember "toString" (JRef 0%nat) w) = Throw (DuplicateKeyError "toString")
  /\ Fs.readFile (disk (snd (rememberSync "toString" (JRef 0%nat) w))) (location w "toString")
     = inl Fs.ENOENT.
Proof. repeat split; vm_compute; reflexivity. Qed.

(** ** The scenarios of the specification, run *)

(** Scenario A: the first bind of [counter] writes its text.  Scenario C: a
    property write through the proxy rewrites the file. *)
Example scenario_first_bind_and_write :
  let w := process_with no_env empty_disk [plain [("count", VNum 0)]] in
  let bound := rememberSync "counter" (JRef 0%nat) w in
  let written := assign set_own_field (Proxy 0%nat (HandlerSync "counter"))
                   "count" (VNum 1) (snd bound) in
  fst bound = Return (Proxy 0%nat (HandlerSync "counter"))
  /\ Fs.readFile (disk (snd bound)) [".cashola"; "counter.json"]
     = inr (text_of (BObj [("count", VNum 0)]))
  /\ fst (read get_own_field (Proxy 0%nat (HandlerSync "counter")) "count" (snd bound))
     = Return (VNum 0)
  /\ fst written = Return true
  /\ fst (read get_own_field (Proxy 0%nat (HandlerSync "counter")) "count" (snd written))
     = Return (VNum 1)
  /\ Fs.readFile (disk (snd written)) [".cashola"; "counter.json"]
     = inr (text_of (BObj [("count", VNum 1)])).
Proof. repeat split; vm_compute; reflexivity. Qed.

(** Scenario E: after [clearAllSync] the directory is gone, and a bind in a
    new process creates the file again. *)
Example scenario_clear_all :
  let w := process_with no_env empty_disk [plain [("count", VNum 0)]] in
  let cleared := clearAllSync (snd (rememberSync "counter" (JRef 0%nat) w)) in
  let again := rememberSync "counter" (JRef 0%nat)
                 (process_with no_env (disk (snd cleared)) [plain [("count", VNum 3)]]) in
  fst cleared = Return tt
  /\ Fs.readFile (disk (snd cleared)) [".cashola"; "counter.json"] = inl Fs.ENOENT
  /\ Fs.is_dir (disk (snd cleared)) [".cashola"] = false
  /\ fst again = Return (Proxy 0%nat (HandlerSync "counter"))
  /\ Fs.readFile (disk (snd again)) [".cashola"; "counter.json"]
     = inr (text_of (BObj [("count", VNum 3)])).
Proof. repeat split; vm_compute; reflexivity. Qed.
